(** * BrainIAK tutorials: notebooks 02 (data handling) and 04
    (dimensionality reduction)

    A shallow embedding of the code cells of the two notebooks and of the
    library calls they make, with the properties stated about them.

    Conventions.
    - A one-dimensional numpy array is a [list]; a two-dimensional
      time-by-voxel array is a list of rows.
    - Integer index arrays hold [Z] (numpy's int64 indices can be
      negative and then count from the end).
    - A Python exception is the [None] of an [option] result, or the
      [inr] of a sum that carries the exception's name where the state
      reached matters.
    - Notebook variables live in a store [gmap string value]; objects
      that are passed by reference live in a heap indexed by location.
    - Code of the libraries the cells call (numpy, scikit-learn, nilearn)
      is modelled from its documented behaviour, next to the call it
      serves. *)

From Stdlib Require Import List ZArith Lia Bool Sorted.
From Stdlib Require Import QArith Reals Lra.
From stdpp Require Import base option list gmap strings pretty.
Import ListNotations.

Local Open Scope Z_scope.

(** ** Numpy indexing primitives shared by the cells *)

Module Np.

(** [np.where(a == k)[0]]: the ascending positions at which [a] holds [k].
    [i] is the position of the head of the list being scanned. *)
Fixpoint where_eq_from (i : Z) (a : list Z) (k : Z) : list Z :=
  match a with
  | [] => []
  | x :: a' =>
      if x =? k then i :: where_eq_from (i + 1) a' k
      else where_eq_from (i + 1) a' k
  end.

Definition where_eq (a : list Z) (k : Z) : list Z := where_eq_from 0 a k.

(** [idx + c] on an index array. *)
Definition add_scalar (idx : list Z) (c : Z) : list Z :=
  List.map (fun i => i + c) idx.

(** [idx[idx < n]]: boolean-mask selection on an index array. *)
Definition select_lt (idx : list Z) (n : Z) : list Z :=
  List.filter (fun i => i <? n) idx.

(** [a[i]] for one integer [i]: positions [0 .. n-1] are read directly,
    [-n .. -1] count from the end, anything else raises IndexError. *)
Definition item {A : Type} (a : list A) (i : Z) : option A :=
  let n := Z.of_nat (List.length a) in
  if (0 <=? i) && (i <? n) then nth_error a (Z.to_nat i)
  else if (- n <=? i) && (i <? 0) then nth_error a (Z.to_nat (i + n))
  else None.

(** [a[idx]] for an integer index array: every index is looked up, the
    first one out of bounds raises. *)
Fixpoint take {A : Type} (a : list A) (idx : list Z) : option (list A) :=
  match idx with
  | [] => Some []
  | i :: idx' =>
      match item a i with
      | None => None
      | Some x =>
          match take a idx' with
          | None => None
          | Some xs => Some (x :: xs)
          end
      end
  end.

(** [a[mask]] for a boolean mask of the length of [a] (numpy rejects any
    other length; the callers below only build masks of that length). *)
Fixpoint select_mask {A : Type} (a : list A) (mask : list bool) : list A :=
  match a, mask with
  | x :: a', b :: mask' =>
      if b then x :: select_mask a' mask' else select_mask a' mask'
  | _, _ => []
  end.

(** [np.flatnonzero(mask)], with [s] the position of the head. *)
Fixpoint flatnonzero_from (s : nat) (mask : list bool) : list nat :=
  match mask with
  | [] => []
  | b :: mask' =>
      if b then s :: flatnonzero_from (S s) mask' else flatnonzero_from (S s) mask'
  end.

Definition flatnonzero (mask : list bool) : list nat := flatnonzero_from 0 mask.

Lemma where_eq_from_spec i a k j :
  In j (where_eq_from i a k) <->
  (i <= j /\ nth_error a (Z.to_nat (j - i)) = Some k).
Proof.
  revert i. induction a as [|x a IH]; intros i; simpl where_eq_from.
  - split; [simpl; tauto|]. intros [_ H]. destruct (Z.to_nat (j - i)); discriminate.
  - assert (Hstep : forall j', i + 1 <= j' ->
             nth_error (x :: a) (Z.to_nat (j' - i)) =
             nth_error a (Z.to_nat (j' - (i + 1)))).
    { intros j' Hj'. replace (Z.to_nat (j' - i)) with (S (Z.to_nat (j' - (i + 1)))) by lia.
      reflexivity. }
    destruct (Z.eqb_spec x k) as [->|Hne].
    + simpl. rewrite IH. split.
      * intros [<-|[Hle Hn]].
        -- split; [lia|]. replace (i - i) with 0 by lia. reflexivity.
        -- split; [lia|]. rewrite Hstep by lia. exact Hn.
      * intros [Hle Hn]. destruct (Z.eq_dec i j) as [->|Hij]; [now left|right].
        split; [lia|]. rewrite <- Hstep by lia. exact Hn.
    + rewrite IH. split.
      * intros [Hle Hn]. split; [lia|]. rewrite Hstep by lia. exact Hn.
      * intros [Hle Hn]. destruct (Z.eq_dec i j) as [->|Hij].
        -- replace (j - j) with 0 in Hn by lia. simpl in Hn. congruence.
        -- split; [lia|]. rewrite <- Hstep by lia. exact Hn.
Qed.

Lemma item_in_bounds {A : Type} (a : list A) (i : Z) :
  0 <= i < Z.of_nat (List.length a) -> is_Some (item a i).
Proof.
  intros Hi. unfold item.
  replace ((0 <=? i) && (i <? Z.of_nat (List.length a))) with true
    by (symmetry; apply andb_true_iff; split; [apply Z.leb_le|apply Z.ltb_lt]; lia).
  destruct (nth_error a (Z.to_nat i)) eqn:E; [eauto|].
  apply nth_error_None in E. lia.
Qed.

Lemma item_above {A : Type} (a : list A) (i : Z) :
  Z.of_nat (List.length a) <= i -> item a i = None.
Proof.
  intros Hi. unfold item.
  replace (i <? Z.of_nat (List.length a)) with false by (symmetry; apply Z.ltb_ge; lia).
  replace (i <? 0) with false by (symmetry; apply Z.ltb_ge; lia).
  now rewrite !andb_false_r.
Qed.

Lemma take_is_Some {A : Type} (a : list A) (idx : list Z) :
  (forall i, In i idx -> 0 <= i < Z.of_nat (List.length a)) ->
  is_Some (take a idx).
Proof.
  induction idx as [|i idx IH]; intros H; simpl; [eauto|].
  destruct (item_in_bounds a i) as [x ->]; [apply H; now left|].
  destruct IH as [xs ->]; [intros j Hj; apply H; now right|]. eauto.
Qed.

Lemma take_None {A : Type} (a : list A) (idx : list Z) (i : Z) :
  In i idx -> item a i = None -> take a idx = None.
Proof.
  induction idx as [|j idx IH]; simpl; [tauto|].
  intros [->|Hin] Hi.
  - now rewrite Hi.
  - destruct (item a j); [|reflexivity]. now rewrite IH.
Qed.

End Np.

(** ** Notebook 02, section 4.2: the evoked-response cell *)

Module Evoked.

Section Cell.
Context {A : Type}.

(** [time_shift = 2]: the hemodynamic lag, in TRs. *)
Definition time_shift : Z := 2.

(** [np.where(cond_labels == c)[0] + time_shift] *)
Definition shifted_onsets (cond_labels : list Z) (c : Z) : list Z :=
  Np.add_scalar (Np.where_eq cond_labels c) time_shift.

Definition face_labels (cond_labels : list Z) : list Z :=
  shifted_onsets cond_labels 1.

Definition scene_labels (cond_labels : list Z) : list Z :=
  shifted_onsets cond_labels 2.

(** The baseline indices are the only ones that the cell filters with
    [baseline_labels[baseline_labels < len(activity)]]. *)
Definition baseline_labels (cond_labels : list Z) (activity : list A) : list Z :=
  Np.select_lt (shifted_onsets cond_labels 0) (Z.of_nat (List.length activity)).

Record evoked : Type := Evoked {
  face_activity : list A;
  scene_activity : list A;
  baseline_activity : list A
}.

(** The three indexing statements, in the order of the cell; the first
    IndexError aborts the cell. *)
Definition evoked_cell (cond_labels : list Z) (activity : list A) : option evoked :=
  match Np.take activity (face_labels cond_labels) with
  | None => None
  | Some fa =>
      match Np.take activity (scene_labels cond_labels) with
      | None => None
      | Some sa =>
          match Np.take activity (baseline_labels cond_labels activity) with
          | None => None
          | Some ba => Some (Evoked fa sa ba)
          end
      end
  end.

Lemma shifted_onsets_spec cond_labels c j :
  In j (shifted_onsets cond_labels c) <->
  (time_shift <= j /\ nth_error cond_labels (Z.to_nat (j - time_shift)) = Some c).
Proof.
  unfold shifted_onsets, Np.add_scalar, Np.where_eq. rewrite in_map_iff. split.
  - intros (i & <- & Hi). apply Np.where_eq_from_spec in Hi as [Hle Hn].
    split; [lia|]. replace (i + time_shift - time_shift) with (i - 0) by lia. exact Hn.
  - intros [Hle Hn]. exists (j - time_shift). split; [lia|].
    apply Np.where_eq_from_spec. split; [lia|].
    replace (j - time_shift - 0) with (j - time_shift) by lia. exact Hn.
Qed.

(** The filtered baseline indices are always valid positions of
    [activity], whatever the two lengths are. *)
Lemma baseline_indexing_succeeds cond_labels (activity : list A) :
  is_Some (Np.take activity (baseline_labels cond_labels activity)).
Proof.
  apply Np.take_is_Some. intros i Hi.
  unfold baseline_labels, Np.select_lt in Hi. apply filter_In in Hi as [Hin Hlt].
  apply Z.ltb_lt in Hlt. apply shifted_onsets_spec in Hin as [Hle _].
  unfold time_shift in Hle. lia.
Qed.

(** A face or scene onset in the last [time_shift] positions is shifted
    past the end of [activity], and the cell raises. *)
Lemma late_onset_raises cond_labels (activity : list A) (p : nat) (c : Z) :
  List.length cond_labels = List.length activity ->
  c = 1 \/ c = 2 ->
  nth_error cond_labels p = Some c ->
  (List.length activity <= p + 2)%nat ->
  evoked_cell cond_labels activity = None.
Proof.
  intros Hlen Hc Hp Hlate.
  assert (Hin : In (Z.of_nat p + time_shift) (shifted_onsets cond_labels c)).
  { apply shifted_onsets_spec. split; [unfold time_shift; lia|].
    replace (Z.to_nat (Z.of_nat p + time_shift - time_shift)) with p by lia. exact Hp. }
  assert (Hnone : Np.item activity (Z.of_nat p + time_shift) = None).
  { apply Np.item_above. unfold time_shift. lia. }
  unfold evoked_cell. destruct Hc as [-> | ->].
  - unfold face_labels. now rewrite (Np.take_None _ _ _ Hin Hnone).
  - destruct (Np.take activity (face_labels cond_labels)); [|reflexivity].
    unfold scene_labels. now rewrite (Np.take_None _ _ _ Hin Hnone).
Qed.

(** Without such a late onset the three indexings succeed. *)
Lemma early_onsets_succeed cond_labels (activity : list A) :
  (forall p c, nth_error cond_labels p = Some c -> c = 1 \/ c = 2 ->
               (p + 2 < List.length activity)%nat) ->
  is_Some (evoked_cell cond_labels activity).
Proof.
  intros Hearly.
  assert (Hok : forall c, c = 1 \/ c = 2 ->
            is_Some (Np.take activity (shifted_onsets cond_labels c))).
  { intros c Hc. apply Np.take_is_Some. intros i Hi.
    apply shifted_onsets_spec in Hi as [Hle Hn]. unfold time_shift in *.
    specialize (Hearly _ _ Hn Hc). lia. }
  unfold evoked_cell, face_labels, scene_labels.
  destruct (Hok 1) as [fa ->]; [now left|].
  destruct (Hok 2) as [sa ->]; [now right|].
  destruct (baseline_indexing_succeeds cond_labels activity) as [ba ->]. eauto.
Qed.

(** *** What the cell computes *)

Lemma onset_past_end_raises cond_labels (activity : list A) (p : nat) (c : Z) :
  c = 1 \/ c = 2 ->
  nth_error cond_labels p = Some c ->
  (List.length activity <= p + 2)%nat ->
  evoked_cell cond_labels activity = None.
Proof.
  intros Hc Hp Hlate.
  assert (Hin : In (Z.of_nat p + time_shift) (shifted_onsets cond_labels c)).
  { apply shifted_onsets_spec. split; [unfold time_shift; lia|].
    replace (Z.to_nat (Z.of_nat p + time_shift - time_shift)) with p by lia. exact Hp. }
  assert (Hnone : Np.item activity (Z.of_nat p + time_shift) = None).
  { apply Np.item_above. unfold time_shift. lia. }
  unfold evoked_cell. destruct Hc as [-> | ->].
  - unfold face_labels. now rewrite (Np.take_None _ _ _ Hin Hnone).
  - destruct (Np.take activity (face_labels cond_labels)); [|reflexivity].
    unfold scene_labels. now rewrite (Np.take_None _ _ _ Hin Hnone).
Qed.

(** X1: The three indexings succeed exactly when no face or scene label sits
    in the last two positions that [activity] has. *)
Theorem evoked_cell_succeeds_iff cond_labels (activity : list A) :
  is_Some (evoked_cell cond_labels activity) <->
  (forall p c, nth_error cond_labels p = Some c -> c = 1 \/ c = 2 ->
               (p + 2 < List.length activity)%nat).
Proof.
  split; [|apply early_onsets_succeed].
  intros [r Hr] p c Hp Hc.
  destruct (Nat.lt_ge_cases (p + 2) (List.length activity)) as [Hlt|Hge]; [exact Hlt|].
  rewrite (onset_past_end_raises cond_labels activity p c Hc Hp Hge) in Hr. discriminate.
Qed.

(** The activity [time_shift] TRs after the time points that carry the
    condition [c]: labels are paired with the activity two positions
    later, and the pairs of condition [c] are kept. *)
Definition lagged_activity (cond_labels : list Z) (activity : list A) (c : Z) : list A :=
  List.map snd
    (List.filter (fun ca : Z * A => fst ca =? c)
                 (List.combine cond_labels (skipn 2 activity))).

Lemma where_eq_from_ge i a k j : In j (Np.where_eq_from i a k) -> i <= j.
Proof. intros H. now apply Np.where_eq_from_spec in H as [H _]. Qed.

Lemma take_filtered_from (cond_labels : list Z) (activity : list A) (c : Z) (s : nat) :
  Np.take activity
    (Np.select_lt (Np.add_scalar (Np.where_eq_from (Z.of_nat s) cond_labels c) time_shift)
                  (Z.of_nat (List.length activity))) =
  Some (List.map snd
          (List.filter (fun ca : Z * A => fst ca =? c)
                       (List.combine cond_labels (skipn (s + 2) activity)))).
Proof.
  revert s. induction cond_labels as [|x cond IH]; intros s; [reflexivity|].
  assert (Hrest : Np.take activity
            (Np.select_lt (Np.add_scalar (Np.where_eq_from (Z.of_nat s + 1) cond c) time_shift)
                          (Z.of_nat (List.length activity))) =
          Some (List.map snd
                  (List.filter (fun ca : Z * A => fst ca =? c)
                               (List.combine cond (skipn (S s + 2) activity))))).
  { replace (Z.of_nat s + 1) with (Z.of_nat (S s)) by lia. apply IH. }
  destruct (skipn (s + 2) activity) as [|y tl] eqn:Hskip.
  - (* every shifted index is past the end *)
    assert (Hlen : (List.length activity <= s + 2)%nat).
    { apply (f_equal (@List.length A)) in Hskip. rewrite length_skipn in Hskip.
      simpl in Hskip. lia. }
    replace (Np.select_lt _ _) with (@nil Z); [reflexivity|].
    symmetry. unfold Np.select_lt, Np.add_scalar.
    assert (Hall : forall i, In i (List.map (fun i => i + time_shift)
                      (Np.where_eq_from (Z.of_nat s) (x :: cond) c)) ->
                   (i <? Z.of_nat (List.length activity)) = false).
    { intros i Hi. apply in_map_iff in Hi as (j & <- & Hj).
      apply where_eq_from_ge in Hj. apply Z.ltb_ge. unfold time_shift. lia. }
    revert Hall. generalize (List.map (fun i => i + time_shift)
                               (Np.where_eq_from (Z.of_nat s) (x :: cond) c)).
    intros l. induction l as [|i l IHl]; intros Hall; [reflexivity|].
    simpl. rewrite (Hall i) by now left. apply IHl. intros j Hj. apply Hall. now right.
  - assert (Hy : nth_error activity (s + 2) = Some y).
    { rewrite <- (Nat.add_0_r (s + 2)), <- nth_error_skipn, Hskip. reflexivity. }
    assert (Htl : skipn (S s + 2) activity = tl).
    { change (S s + 2)%nat with (S (s + 2)).
      rewrite <- (Nat.add_1_l (s + 2)), <- skipn_skipn, Hskip. reflexivity. }
    rewrite Htl in Hrest.
    assert (Hs : (s + 2 < List.length activity)%nat).
    { apply nth_error_Some. congruence. }
    cbn [Np.where_eq_from List.combine List.filter fst].
    destruct (x =? c).
    + cbn [Np.add_scalar List.map Np.select_lt List.filter snd].
      replace (Z.of_nat s + time_shift <? Z.of_nat (List.length activity)) with true
        by (symmetry; apply Z.ltb_lt; unfold time_shift; lia).
      cbn [Np.take]. unfold Np.item.
      replace ((0 <=? Z.of_nat s + time_shift) &&
               (Z.of_nat s + time_shift <? Z.of_nat (List.length activity))) with true
        by (symmetry; apply andb_true_iff; split;
            [apply Z.leb_le|apply Z.ltb_lt]; unfold time_shift; lia).
      replace (Z.to_nat (Z.of_nat s + time_shift)) with (s + 2)%nat
        by (unfold time_shift; lia).
      rewrite Hy. unfold Np.select_lt, Np.add_scalar in Hrest. now rewrite Hrest.
    + exact Hrest.
Qed.

Lemma select_lt_all (idx : list Z) (n : Z) :
  (forall i, In i idx -> i < n) -> Np.select_lt idx n = idx.
Proof.
  unfold Np.select_lt. induction idx as [|i idx IH]; intros H; [reflexivity|].
  simpl. replace (i <? n) with true by (symmetry; apply Z.ltb_lt, H; now left).
  f_equal. apply IH. intros j Hj. apply H. now right.
Qed.

Lemma take_Some_bound (activity : list A) (idx : list Z) (xs : list A) :
  Np.take activity idx = Some xs ->
  forall i, In i idx -> i < Z.of_nat (List.length activity).
Proof.
  intros Htake i Hi.
  destruct (Z.lt_ge_cases i (Z.of_nat (List.length activity))) as [Hlt|Hge]; [exact Hlt|].
  rewrite (Np.take_None activity idx i Hi (Np.item_above activity i Hge)) in Htake.
  discriminate.
Qed.

Lemma take_shifted_onsets (cond_labels : list Z) (activity : list A) (c : Z) (xs : list A) :
  Np.take activity (shifted_onsets cond_labels c) = Some xs ->
  xs = lagged_activity cond_labels activity c.
Proof.
  intros Htake. pose proof (take_filtered_from cond_labels activity c 0) as Hf.
  change (Z.of_nat 0) with 0 in Hf. fold (Np.where_eq cond_labels c) in Hf.
  fold (shifted_onsets cond_labels c) in Hf.
  rewrite (select_lt_all _ _ (take_Some_bound _ _ _ Htake)) in Hf.
  unfold lagged_activity. simpl in Hf. congruence.
Qed.

(** X2: When the cell completes, each of the three results is the activity
    two TRs after the time points of its condition, in time order; for the
    baseline, the time points whose shifted position is past the end are
    left out. *)
Theorem evoked_cell_lagged cond_labels (activity : list A) (r : evoked) :
  evoked_cell cond_labels activity = Some r ->
  face_activity r = lagged_activity cond_labels activity 1 /\
  scene_activity r = lagged_activity cond_labels activity 2 /\
  baseline_activity r = lagged_activity cond_labels activity 0.
Proof.
  unfold evoked_cell, face_labels, scene_labels, baseline_labels.
  destruct (Np.take activity (shifted_onsets cond_labels 1)) as [fa|] eqn:Hfa; [|discriminate].
  destruct (Np.take activity (shifted_onsets cond_labels 2)) as [sa|] eqn:Hsa; [|discriminate].
  pose proof (take_filtered_from cond_labels activity 0 0) as Hba.
  change (Z.of_nat 0) with 0 in Hba. fold (Np.where_eq cond_labels 0) in Hba.
  fold (shifted_onsets cond_labels 0) in Hba. rewrite Hba.
  intros [= <-]. simpl.
  split; [now apply take_shifted_onsets|]. split; [now apply take_shifted_onsets|].
  reflexivity.
Qed.

End Cell.

(** C2 (evaluation at the failing input): with a face onset at the last
    time point, [cond_labels = [0; 0; 1]] and [activity = [5; 6; 7]] of
    equal length 3, the shifted face index is 4 and [activity[face_labels]]
    raises IndexError, while the filtered baseline indexing of the same
    cell succeeds. *)
Theorem C2_face_indexing_out_of_bounds :
  List.length [0; 0; 1] = List.length [5; 6; 7] /\
  face_labels [0; 0; 1] = [4] /\
  Np.take [5; 6; 7] (face_labels [0; 0; 1]) = None /\
  Np.take [5; 6; 7] (baseline_labels [0; 0; 1] [5; 6; 7]) = Some [7] /\
  evoked_cell [0; 0; 1] [5; 6; 7] = None.
Proof. repeat split; reflexivity. Qed.

(** X2 (witness): a face at time 0, a scene at time 2
    and baseline at times 1, 3 and 4, of which only time 1 has a shifted
    position inside [activity]. *)
Lemma evoked_cell_lagged_witness :
  evoked_cell [1; 0; 2; 0; 0] [10; 11; 12; 13; 14] = Some (Evoked [12] [14] [13]) /\
  (face_activity (Evoked [12] [14] [13]) =
     lagged_activity [1; 0; 2; 0; 0] [10; 11; 12; 13; 14] 1 /\
   scene_activity (Evoked [12] [14] [13]) =
     lagged_activity [1; 0; 2; 0; 0] [10; 11; 12; 13; 14] 2 /\
   baseline_activity (Evoked [12] [14] [13]) =
     lagged_activity [1; 0; 2; 0; 0] [10; 11; 12; 13; 14] 0).
Proof.
  split; [reflexivity|].
  apply (evoked_cell_lagged [1; 0; 2; 0; 0] [10; 11; 12; 13; 14]). reflexivity.
Defined.

End Evoked.

(** ** Notebook 04, section 4.1: [PredefinedSplit(run_ids).split]

    The cell builds [ps = PredefinedSplit(run_ids)] and enumerates
    [ps.split(bold_normalized, labels)].  scikit-learn's class keeps
    [test_fold], computes [unique_folds = np.unique(test_fold)] without the
    value [-1], and yields for each [f] of [unique_folds] the pair
    [(ind[~mask], ind[mask])] with [mask = (test_fold == f)] and
    [ind = np.arange(len(test_fold))]. *)

Module Split.

(** Insertion of one value into a strictly ascending list. *)
Fixpoint insert_unique (x : Z) (l : list Z) : list Z :=
  match l with
  | [] => [x]
  | y :: l' =>
      if x <? y then x :: l
      else if x =? y then l
      else y :: insert_unique x l'
  end.

(** [np.unique(a)]: the distinct values of [a], ascending. *)
Definition unique (a : list Z) : list Z := fold_right insert_unique [] a.

(** [np.arange(n)], generalised to a start value. *)
Fixpoint arange_from (s : Z) (n : nat) : list Z :=
  match n with
  | O => []
  | S n' => s :: arange_from (s + 1) n'
  end.

Definition arange (n : nat) : list Z := arange_from 0 n.

(** [unique_folds[unique_folds != -1]] *)
Definition unique_folds (test_fold : list Z) : list Z :=
  List.filter (fun f => negb (f =? -1)) (unique test_fold).

(** The boolean test mask of fold [f]. *)
Definition test_mask (test_fold : list Z) (f : Z) : list bool :=
  List.map (fun x => x =? f) test_fold.

(** One yielded pair [(train_index, test_index)]. *)
Definition fold_of (test_fold : list Z) (f : Z) : list Z * list Z :=
  let ind := arange (List.length test_fold) in
  let mask := test_mask test_fold f in
  (Np.select_mask ind (List.map negb mask), Np.select_mask ind mask).

(** [list(PredefinedSplit(test_fold).split())] *)
Definition split (test_fold : list Z) : list (list Z * list Z) :=
  List.map (fold_of test_fold) (unique_folds test_fold).

(** The run id stored at position [i], if [i] is a position. *)
Definition run_id_at (run_ids : list Z) (i : Z) : option Z :=
  if 0 <=? i then nth_error run_ids (Z.to_nat i) else None.

(** The fold property stated with non-negative run ids: folds are the
    distinct non-negative run ids, and train holds only positions with a
    non-negative run id. *)
Definition nonnegative_fold_spec (run_ids : list Z) : Prop :=
  exists held_out : list Z,
    List.NoDup held_out /\
    (forall f, In f held_out <-> In f run_ids /\ 0 <= f) /\
    Forall2 (fun f (fold : list Z * list Z) =>
               let (train, test) := fold in
               (forall i, In i test <-> run_id_at run_ids i = Some f) /\
               (forall i, In i train <->
                          exists r, run_id_at run_ids i = Some r /\ r <> f /\ 0 <= r) /\
               (forall i, ~ (In i train /\ In i test)))
            held_out (split run_ids).

(** The fold property the code has: folds are the distinct run ids other
    than [-1], and train is every remaining position. *)
Definition fold_spec (run_ids : list Z) : Prop :=
  List.NoDup (unique_folds run_ids) /\
  (forall f, In f (unique_folds run_ids) <-> In f run_ids /\ f <> -1) /\
  Forall2 (fun f (fold : list Z * list Z) =>
             let (train, test) := fold in
             (forall i, In i test <-> run_id_at run_ids i = Some f) /\
             (forall i, In i train <->
                        exists r, run_id_at run_ids i = Some r /\ r <> f) /\
             (forall i, ~ (In i train /\ In i test)))
          (unique_folds run_ids) (split run_ids).

Lemma insert_unique_In x l y : In y (insert_unique x l) <-> y = x \/ In y l.
Proof.
  induction l as [|z l IH]; simpl.
  - intuition.
  - destruct (Z.ltb_spec x z); [simpl; intuition|].
    destruct (Z.eqb_spec x z) as [->|Hne]; simpl; [intuition|].
    rewrite IH. intuition.
Qed.

Lemma insert_unique_sorted x l :
  StronglySorted Z.lt l -> StronglySorted Z.lt (insert_unique x l).
Proof.
  induction 1 as [|z l Hs IH Hall]; simpl.
  - repeat constructor.
  - destruct (Z.ltb_spec x z) as [Hlt|Hge].
    + constructor; [now constructor|]. constructor; [exact Hlt|].
      rewrite List.Forall_forall in *. intros y Hy. specialize (Hall y Hy). lia.
    + destruct (Z.eqb_spec x z) as [->|Hne]; [now constructor|].
      constructor; [exact IH|]. rewrite List.Forall_forall in *. intros y Hy.
      apply insert_unique_In in Hy as [->|Hy]; [lia|now apply Hall].
Qed.

Lemma unique_In a f : In f (unique a) <-> In f a.
Proof.
  induction a as [|x a IH]; simpl; [tauto|].
  rewrite insert_unique_In, IH. intuition.
Qed.

Lemma unique_sorted a : StronglySorted Z.lt (unique a).
Proof.
  induction a as [|x a IH]; simpl; [constructor|now apply insert_unique_sorted].
Qed.

Lemma sorted_NoDup l : StronglySorted Z.lt l -> List.NoDup l.
Proof.
  induction 1 as [|z l Hs IH Hall]; constructor; [|exact IH].
  intros Hin. rewrite List.Forall_forall in Hall. specialize (Hall z Hin). lia.
Qed.

Lemma unique_folds_In a f : In f (unique_folds a) <-> In f a /\ f <> -1.
Proof.
  unfold unique_folds. rewrite filter_In, unique_In, negb_true_iff, Z.eqb_neq. tauto.
Qed.

Lemma unique_folds_NoDup a : List.NoDup (unique_folds a).
Proof. unfold unique_folds. apply List.NoDup_filter, sorted_NoDup, unique_sorted. Qed.

(** Selecting from [s, s+1, ...] with the mask [p] mapped over [a] keeps
    exactly the positions whose element satisfies [p]. *)
Lemma select_mask_arange_In (p : Z -> bool) (a : list Z) (s i : Z) :
  In i (Np.select_mask (arange_from s (List.length a)) (List.map p a)) <->
  (s <= i /\ exists r, nth_error a (Z.to_nat (i - s)) = Some r /\ p r = true).
Proof.
  revert s. induction a as [|x a IH]; intros s; simpl.
  - split; [tauto|]. intros [_ (r & H & _)]. destruct (Z.to_nat (i - s)); discriminate.
  - assert (Hstep : s + 1 <= i ->
             nth_error (x :: a) (Z.to_nat (i - s)) = nth_error a (Z.to_nat (i - (s + 1)))).
    { intros Hi. replace (Z.to_nat (i - s)) with (S (Z.to_nat (i - (s + 1)))) by lia.
      reflexivity. }
    assert (Hhead : nth_error (x :: a) (Z.to_nat (s - s)) = Some x).
    { replace (s - s) with 0 by lia. reflexivity. }
    destruct (p x) eqn:Hpx; simpl; rewrite IH; split.
    + intros [<-|[Hle (r & Hn & Hr)]].
      * split; [lia|]. exists x. now rewrite Hhead.
      * split; [lia|]. exists r. now rewrite Hstep by lia.
    + intros [Hle (r & Hn & Hr)]. destruct (Z.eq_dec s i) as [->|Hne]; [now left|right].
      split; [lia|]. exists r. now rewrite <- Hstep by lia.
    + intros [Hle (r & Hn & Hr)]. split; [lia|]. exists r. now rewrite Hstep by lia.
    + intros [Hle (r & Hn & Hr)]. destruct (Z.eq_dec s i) as [->|Hne].
      * rewrite Hhead in Hn. congruence.
      * split; [lia|]. exists r. now rewrite <- Hstep by lia.
Qed.

Lemma run_id_at_spec run_ids i r :
  run_id_at run_ids i = Some r <->
  (0 <= i /\ nth_error run_ids (Z.to_nat (i - 0)) = Some r).
Proof.
  unfold run_id_at. rewrite Z.sub_0_r.
  destruct (Z.leb_spec 0 i); split; try tauto; try discriminate; intros [? ?]; lia.
Qed.

Lemma fold_of_test run_ids f i :
  In i (snd (fold_of run_ids f)) <-> run_id_at run_ids i = Some f.
Proof.
  unfold fold_of, test_mask, arange. simpl snd.
  rewrite select_mask_arange_In, run_id_at_spec. split.
  - intros [Hle (r & Hn & Hr)]. apply Z.eqb_eq in Hr. subst r. tauto.
  - intros [Hle Hn]. split; [exact Hle|]. exists f. split; [exact Hn|apply Z.eqb_refl].
Qed.

Lemma fold_of_train run_ids f i :
  In i (fst (fold_of run_ids f)) <->
  exists r, run_id_at run_ids i = Some r /\ r <> f.
Proof.
  unfold fold_of, test_mask, arange. simpl fst. rewrite List.map_map.
  rewrite (select_mask_arange_In (fun x => negb (x =? f))). split.
  - intros [Hle (r & Hn & Hr)]. exists r. rewrite run_id_at_spec.
    apply negb_true_iff, Z.eqb_neq in Hr. tauto.
  - intros (r & Hr & Hne). apply run_id_at_spec in Hr as [Hle Hn].
    split; [exact Hle|]. exists r. split; [exact Hn|]. now apply negb_true_iff, Z.eqb_neq.
Qed.

Lemma Forall2_map_self {A B : Type} (R : A -> B -> Prop) (g : A -> B) (l : list A) :
  (forall x, In x l -> R x (g x)) -> Forall2 R l (List.map g l).
Proof.
  induction l as [|x l IH]; intros H; simpl; constructor.
  - apply H. now left.
  - apply IH. intros y Hy. apply H. now right.
Qed.

(** C6 (amended): for every integer array [run_ids] there is one fold per
    distinct run id other than [-1]; in the fold of the held-out value [f]
    the test set is exactly the set of positions whose run id is [f], the
    train set is exactly the set of all other positions (whatever the sign
    of their run id), and the two sets are disjoint. *)
Theorem C6_split_fold_spec (run_ids : list Z) : fold_spec run_ids.
Proof.
  unfold fold_spec. split; [apply unique_folds_NoDup|].
  split; [apply unique_folds_In|].
  unfold split. apply Forall2_map_self. intros f _.
  pose proof (fold_of_test run_ids f) as Htest.
  pose proof (fold_of_train run_ids f) as Htrain.
  destruct (fold_of run_ids f) as [train test]. simpl in Htest, Htrain.
  split; [exact Htest|]. split; [exact Htrain|].
  intros i [Hi1 Hi2]. apply Htrain in Hi1 as (r & Hr & Hne).
  apply Htest in Hi2. congruence.
Qed.

(** C6 (counterexample): with [run_ids = [-1; 0]] the only fold is
    [([0], [1])]; its train set holds position 0, whose run id [-1] is
    negative, so the property as worded does not hold. *)
Lemma C6_negative_id_in_train : ~ nonnegative_fold_spec [-1; 0].
Proof.
  intros (held & _ & _ & HF).
  change (split [-1; 0]) with [([0], [1])] in HF.
  inversion HF as [|f fold held' folds' Hfold _]; subst.
  destruct Hfold as (_ & Htrain & _).
  destruct (proj1 (Htrain 0)) as (r & Hr & _ & Hnonneg); [now left|].
  cbv in Hr. injection Hr as <-. lia.
Qed.

(** *** Further properties of the folds *)

Lemma arange_from_In (s : Z) (n : nat) (i : Z) :
  In i (arange_from s n) <-> s <= i < s + Z.of_nat n.
Proof.
  revert s. induction n as [|n IH]; intros s.
  - simpl. lia.
  - cbn [arange_from In]. rewrite IH. lia.
Qed.

Lemma arange_from_sorted (s : Z) (n : nat) : StronglySorted Z.lt (arange_from s n).
Proof.
  revert s. induction n as [|n IH]; intros s; simpl; constructor; [apply IH|].
  apply List.Forall_forall. intros i Hi. apply arange_from_In in Hi. lia.
Qed.

Lemma select_mask_In {A : Type} (a : list A) (mask : list bool) (x : A) :
  In x (Np.select_mask a mask) -> In x a.
Proof.
  revert mask. induction a as [|y a IH]; intros [|b mask]; simpl; try tauto.
  destruct b; simpl; intros H.
  - destruct H as [->|H]; [now left|right; eauto].
  - right. eauto.
Qed.

Lemma select_mask_sorted (a : list Z) (mask : list bool) :
  StronglySorted Z.lt a -> StronglySorted Z.lt (Np.select_mask a mask).
Proof.
  intros Hs. revert mask. induction Hs as [|x a Hs IH Hall]; intros [|b mask];
    simpl; try constructor.
  destruct b; [|apply IH]. constructor; [apply IH|].
  apply List.Forall_forall. intros y Hy. apply select_mask_In in Hy.
  rewrite List.Forall_forall in Hall. now apply Hall.
Qed.

Lemma select_mask_complement_length {A : Type} (a : list A) (mask : list bool) :
  List.length mask = List.length a ->
  (List.length (Np.select_mask a (List.map negb mask)) +
   List.length (Np.select_mask a mask) = List.length a)%nat.
Proof.
  revert mask. induction a as [|x a IH]; intros [|b mask] Hlen; simpl in *;
    try reflexivity; try discriminate.
  injection Hlen as Hlen. specialize (IH mask Hlen). destruct b; simpl; lia.
Qed.

Lemma arange_from_length (s : Z) (n : nat) : List.length (arange_from s n) = n.
Proof. revert s. induction n as [|n IH]; intros s; simpl; [reflexivity|now rewrite IH]. Qed.

Lemma run_id_at_is_Some (run_ids : list Z) (i : Z) :
  is_Some (run_id_at run_ids i) <-> 0 <= i < Z.of_nat (List.length run_ids).
Proof.
  unfold run_id_at. destruct (Z.leb_spec 0 i) as [Hle|Hlt].
  - rewrite <- not_eq_None_Some. rewrite nth_error_Some. lia.
  - split; [intros [x Hx]; discriminate|lia].
Qed.

Lemma split_nth_error (run_ids : list Z) (k : nat) (fold : list Z * list Z) :
  nth_error (split run_ids) k = Some fold <->
  exists f, nth_error (unique_folds run_ids) k = Some f /\ fold = fold_of run_ids f.
Proof.
  unfold split. rewrite nth_error_map.
  destruct (nth_error (unique_folds run_ids) k) as [f|]; simpl; split.
  - intros [= <-]. eauto.
  - intros (f' & [= <-] & ->). reflexivity.
  - discriminate.
  - intros (f' & Hf & _). discriminate.
Qed.

(** X15: In every fold the train and the test indices are ascending, and
    together they are all the positions of the array, each once. *)
Theorem split_fold_covers (run_ids : list Z) (train test : list Z) :
  In (train, test) (split run_ids) ->
  StronglySorted Z.lt train /\
  StronglySorted Z.lt test /\
  (forall i, In i train \/ In i test <-> 0 <= i < Z.of_nat (List.length run_ids)) /\
  (List.length train + List.length test = List.length run_ids)%nat.
Proof.
  intros Hin. unfold split in Hin. apply in_map_iff in Hin as (f & Hfold & _).
  pose proof (fold_of_test run_ids f) as Htest.
  pose proof (fold_of_train run_ids f) as Htrain.
  rewrite Hfold in Htest, Htrain. simpl in Htest, Htrain.
  unfold fold_of in Hfold. injection Hfold as <- <-.
  split; [apply select_mask_sorted, arange_from_sorted|].
  split; [apply select_mask_sorted, arange_from_sorted|].
  split.
  - intros i. rewrite Htest, Htrain, <- run_id_at_is_Some. split.
    + intros [(r & Hr & _)|Hr]; eauto.
    + intros [r Hr]. destruct (Z.eq_dec r f) as [->|Hne]; [now right|left; eauto].
  - rewrite select_mask_complement_length; unfold test_mask, arange;
      rewrite ?length_map, arange_from_length; reflexivity.
Qed.

Lemma split_fold_covers_witness :
  In ([0; 1; 3], [2; 4]) (split [0; 0; 1; -1; 1]) /\
  StronglySorted Z.lt [0; 1; 3] /\
  StronglySorted Z.lt [2; 4] /\
  (forall i, In i [0; 1; 3] \/ In i [2; 4] <->
             0 <= i < Z.of_nat (List.length [0; 0; 1; -1; 1])) /\
  Nat.add (List.length [0; 1; 3]) (List.length [2; 4]) = List.length [0; 0; 1; -1; 1].
Proof.
  assert (H : In ([0; 1; 3], [2; 4]) (split [0; 0; 1; -1; 1])) by (right; now left).
  split; [exact H|]. exact (split_fold_covers [0; 0; 1; -1; 1] [0; 1; 3] [2; 4] H).
Defined.

(** X16: Every fold has a non-empty test set, and two folds at different
    places of the list have disjoint test sets, so no two folds are
    equal. *)
Theorem split_folds_differ (run_ids : list Z) :
  (forall k fold, nth_error (split run_ids) k = Some fold -> snd fold <> []) /\
  (forall k k' fold fold',
     nth_error (split run_ids) k = Some fold ->
     nth_error (split run_ids) k' = Some fold' ->
     k <> k' ->
     (forall i, ~ (In i (snd fold) /\ In i (snd fold'))) /\ fold <> fold').
Proof.
  assert (Hnonempty : forall k fold,
            nth_error (split run_ids) k = Some fold -> snd fold <> []).
  { intros k fold Hk. apply split_nth_error in Hk as (f & Hf & ->).
    apply nth_error_In, unique_folds_In in Hf as [Hin _].
    apply In_nth_error in Hin as [p Hp].
    assert (Hi : In (Z.of_nat p) (snd (fold_of run_ids f))).
    { apply fold_of_test. unfold run_id_at.
      replace (0 <=? Z.of_nat p) with true by (symmetry; apply Z.leb_le; lia).
      now rewrite Nat2Z.id. }
    intros Hnil. rewrite Hnil in Hi. exact Hi. }
  split; [exact Hnonempty|].
  intros k k' fold fold' Hk Hk' Hne.
  pose proof (Hnonempty k fold Hk) as Hfold.
  apply split_nth_error in Hk as (f & Hf & ->).
  apply split_nth_error in Hk' as (f' & Hf' & ->).
  assert (Hff : f <> f').
  { intros <-. apply Hne.
    apply (proj1 (NoDup_nth_error (unique_folds run_ids)) (unique_folds_NoDup run_ids)).
    - apply nth_error_Some. congruence.
    - congruence. }
  assert (Hdisj : forall i, ~ (In i (snd (fold_of run_ids f)) /\
                               In i (snd (fold_of run_ids f')))).
  { intros i [H1 H2]. apply fold_of_test in H1, H2. congruence. }
  split; [exact Hdisj|].
  intros Heq. destruct (snd (fold_of run_ids f)) as [|i rest] eqn:E; [congruence|].
  apply (Hdisj i). rewrite <- Heq, E. split; now left.
Qed.

(** X16 (witness): the two folds of [[0; 0; 1; -1; 1]], and the single
    fold of [[0]]. *)
Lemma split_folds_differ_witness :
  nth_error (split [0; 0; 1; -1; 1]) 0 = Some ([2; 3; 4], [0; 1]) /\
  nth_error (split [0; 0; 1; -1; 1]) 1 = Some ([0; 1; 3], [2; 4]) /\
  snd ([2; 3; 4], [0; 1]) <> [] /\
  (forall i, ~ (In i (snd ([2; 3; 4], [0; 1])) /\ In i (snd ([0; 1; 3], [2; 4])))) /\
  ([2; 3; 4], [0; 1]) <> ([0; 1; 3], [2; 4]) /\
  nth_error (split [0]) 0 = Some ([], [0]) /\
  snd (@nil Z, [0]) <> [].
Proof.
  destruct (split_folds_differ [0; 0; 1; -1; 1]) as [Hne Hdiff].
  destruct (split_folds_differ [0]) as [Hne1 _].
  split; [reflexivity|]. split; [reflexivity|].
  split; [exact (Hne 0%nat _ eq_refl)|].
  destruct (Hdiff 0%nat 1%nat _ _ eq_refl eq_refl) as [Hd Hf]; [lia|].
  split; [exact Hd|]. split; [exact Hf|].
  split; [reflexivity|]. exact (Hne1 0%nat _ eq_refl).
Defined.

Lemma unique_folds_sorted (run_ids : list Z) : StronglySorted Z.lt (unique_folds run_ids).
Proof.
  unfold unique_folds. generalize (unique_sorted run_ids).
  generalize (unique run_ids). intros l Hs.
  induction Hs as [|x l Hs IH Hall]; simpl; [constructor|].
  destruct (negb (x =? -1)); [|exact IH]. constructor; [exact IH|].
  apply List.Forall_forall. intros y Hy. apply filter_In in Hy as [Hy _].
  rewrite List.Forall_forall in Hall. now apply Hall.
Qed.

(** X17: Every position whose run id is not [-1] is in the test set of exactly
    one fold; a position whose run id is [-1] is in the test set of no
    fold and in the train set of every fold. *)
Theorem split_tests_each_position_once (run_ids : list Z) (i r : Z) :
  run_id_at run_ids i = Some r ->
  (r <> -1 ->
   exists k fold,
     nth_error (split run_ids) k = Some fold /\ In i (snd fold) /\
     forall k' fold', nth_error (split run_ids) k' = Some fold' ->
                      In i (snd fold') -> k' = k) /\
  (r = -1 ->
   forall fold, In fold (split run_ids) -> In i (fst fold) /\ ~ In i (snd fold)).
Proof.
  intros Hr. split.
  - intros Hne.
    assert (Hin : In r (unique_folds run_ids)).
    { apply unique_folds_In. split; [|exact Hne].
      apply run_id_at_spec in Hr as [_ Hr]. now apply nth_error_In in Hr. }
    apply In_nth_error in Hin as [k Hk].
    exists k, (fold_of run_ids r). split; [apply split_nth_error; eauto|].
    split; [now apply fold_of_test|].
    intros k' fold' Hk' Hi. apply split_nth_error in Hk' as (f' & Hf' & ->).
    apply fold_of_test in Hi. assert (f' = r) by congruence. subst f'.
    apply (proj1 (NoDup_nth_error (unique_folds run_ids)) (unique_folds_NoDup run_ids)).
    + apply nth_error_Some. congruence.
    + congruence.
  - intros -> fold Hfold. unfold split in Hfold.
    apply in_map_iff in Hfold as (f & <- & Hf). apply unique_folds_In in Hf as [_ Hf].
    split.
    + apply fold_of_train. exists (-1). split; [exact Hr|]. congruence.
    + intros Hi. apply fold_of_test in Hi. congruence.
Qed.

Lemma split_tests_each_position_once_witness :
  run_id_at [0; 0; 1; -1; 1] 2 = Some 1 /\
  (1 <> -1 ->
   exists k fold,
     nth_error (split [0; 0; 1; -1; 1]) k = Some fold /\ In 2 (snd fold) /\
     forall k' fold', nth_error (split [0; 0; 1; -1; 1]) k' = Some fold' ->
                      In 2 (snd fold') -> k' = k).
Proof.
  split; [reflexivity|].
  exact (proj1 (split_tests_each_position_once [0; 0; 1; -1; 1] 2 1 eq_refl)).
Defined.

End Split.

(** ** Notebook state: variables, printed output, drawn plots *)

Module Nb.

(** The Python values the cells bind to names. *)
Inductive value : Type :=
  | VNone
  | VInt (z : Z)
  | VStr (s : string)
  | VArray (a : list (list Q))
  | VObject (class_name : string).

(** What matplotlib was asked to draw. *)
Inductive plot_event : Type :=
  | Subplots (rows cols : Z)
  | Plot (axis : nat) (data : list Q)
  | SetTitle (axis : nat) (title : string)
  | SetXLabel (axis : nat) (label : string)
  | TightLayout.

Record nbstate : Type := NbState {
  vars : gmap string value;
  stdout : list string;
  plots : list plot_event
}.

(** A statement either completes or raises; the state it reached is kept
    in both cases, as in an interactive kernel. *)
Definition stmt (A : Type) : Type := nbstate -> (A + string) * nbstate.

Definition ret {A : Type} (x : A) : stmt A := fun s => (inl x, s).

Definition raise {A : Type} (exc : string) : stmt A := fun s => (inr exc, s).

Definition bind {A B : Type} (m : stmt A) (k : A -> stmt B) : stmt B :=
  fun s =>
    match m s with
    | (inl x, s') => k x s'
    | (inr exc, s') => (inr exc, s')
    end.

Notation "x <- m ;; k" := (bind m (fun x => k))
  (at level 100, m at next level, right associativity).
Notation "m ;;; k" := (bind m (fun _ => k))
  (at level 100, right associativity).

(** Reading a name: NameError when it is unbound. *)
Definition get_var (x : string) : stmt value :=
  fun s =>
    match vars s !! x with
    | Some v => (inl v, s)
    | None => (inr "NameError"%string, s)
    end.

(** [x = v] *)
Definition assign (x : string) (v : value) : stmt unit :=
  fun s => (inl tt, NbState (<[x := v]> (vars s)) (stdout s) (plots s)).

(** [print(msg)] *)
Definition print (msg : string) : stmt unit :=
  fun s => (inl tt, NbState (vars s) (stdout s ++ [msg]) (plots s)).

Definition draw (e : plot_event) : stmt unit :=
  fun s => (inl tt, NbState (vars s) (stdout s) (plots s ++ [e])).

(** [a[:, j]] on a two-dimensional array. *)
Fixpoint column (a : list (list Q)) (j : nat) : option (list Q) :=
  match a with
  | [] => Some []
  | row :: a' =>
      match nth_error row j, column a' j with
      | Some x, Some xs => Some (x :: xs)
      | _, _ => None
      end
  end.

(** [a[i, :]] on a two-dimensional array. *)
Definition row (a : list (list Q)) (i : nat) : option (list Q) := nth_error a i.

End Nb.

(** ** Notebook 02, Exercise 7 and the plotting cell after it *)

Module Ex7.
Import Nb.

Definition reminder : string :=
  "Please assign Z-score values in the previous step to maskedData_normalized.".

(** The exercise cell as shipped: [maskedData_normalized = None]. *)
Definition exercise_cell : stmt unit := assign "maskedData_normalized" VNone.

(** The body of the [if] branch.  [v = 0] and [t = 0] select the first
    voxel and the first time point. *)
Definition plot_branch (data : value) : stmt unit :=
  draw (Subplots 2 1) ;;;
  assign "f" (VObject "Figure") ;;;
  assign "axes" (VObject "ndarray of Axes") ;;;
  assign "v" (VInt 0) ;;;
  assign "t" (VInt 0) ;;;
  match data with
  | VArray a =>
      match column a 0, row a 0 with
      | Some time_course, Some pattern =>
          draw (Plot 0 time_course) ;;;
          draw (SetTitle 0 "voxel-wise normalized BOLD time course (voxel id = 0)") ;;;
          draw (SetXLabel 0 "TR") ;;;
          draw (Plot 1 pattern) ;;;
          draw (SetTitle 1 "voxel-wise normalized BOLD whole brain patttern (time = 0)") ;;;
          draw (SetXLabel 1 "Voxel index") ;;;
          draw TightLayout
      | Some time_course, None =>
          draw (Plot 0 time_course) ;;;
          draw (SetTitle 0 "voxel-wise normalized BOLD time course (voxel id = 0)") ;;;
          draw (SetXLabel 0 "TR") ;;;
          raise "IndexError"
      | None, _ => raise "IndexError"
      end
  | _ => raise "TypeError"
  end.

(** [if maskedData_normalized is not None: ... else: print(...)] *)
Definition plot_cell : stmt unit :=
  data <- get_var "maskedData_normalized" ;;
  match data with
  | VNone => print reminder
  | _ => plot_branch data
  end.

Lemma plot_branch_draws data s :
  exists rest, plots (snd (plot_branch data s)) = plots s ++ Subplots 2 1 :: rest.
Proof.
  unfold plot_branch.
  destruct data as [| | |a|]; [| | |destruct (column a 0), (row a 0)|];
    cbv [bind draw assign raise]; simpl; rewrite <- ?app_assoc; simpl; eauto.
Qed.

Lemma plot_cell_None s :
  vars s !! "maskedData_normalized" = Some VNone ->
  plot_cell s = (inl tt, NbState (vars s) (stdout s ++ [reminder]) (plots s)).
Proof. intros H. unfold plot_cell, bind, get_var. now rewrite H. Qed.

Lemma plot_cell_draws_iff s :
  plots (snd (plot_cell s)) <> plots s <->
  exists data, vars s !! "maskedData_normalized" = Some data /\ data <> VNone.
Proof.
  unfold plot_cell, bind, get_var.
  destruct (vars s !! "maskedData_normalized") as [data|] eqn:E; simpl.
  - assert (Hbranch : plots (snd (plot_branch data s)) <> plots s).
    { destruct (plot_branch_draws data s) as [rest ->]. intros Heq.
      apply (f_equal (@List.length _)) in Heq. rewrite length_app in Heq. simpl in Heq. lia. }
    destruct data; simpl; split;
      try (intros _; eexists; split; [reflexivity|discriminate]);
      try (intros _; exact Hbranch).
    + intros H. now contradiction H.
    + intros (d & Hd & Hne). congruence.
  - split; [intros H; now contradiction H|]. intros (d & Hd & _). discriminate.
Qed.

(** C9: when Exercise 7 is left as shipped, the plotting cell completes
    without an exception, prints only the reminder, draws nothing and binds
    no name, so [maskedData] and every variable other than
    [maskedData_normalized] keep the value they had before the exercise
    cell; and in any state the cell draws exactly when
    [maskedData_normalized] is bound to something other than [None]. *)
Theorem C9_unmodified_exercise_prints_reminder (s : nbstate) :
  let s1 := snd (exercise_cell s) in
  vars s1 !! "maskedData_normalized" = Some VNone /\
  plot_cell s1 =
    (inl tt, NbState (vars s1) (stdout s ++ [reminder]) (plots s)) /\
  vars s1 !! "maskedData" = vars s !! "maskedData" /\
  (forall x, x <> "maskedData_normalized"%string -> vars s1 !! x = vars s !! x) /\
  (forall s' : nbstate,
     plots (snd (plot_cell s')) <> plots s' <->
     exists data, vars s' !! "maskedData_normalized" = Some data /\ data <> VNone).
Proof.
  simpl. repeat split.
  - apply lookup_insert_eq.
  - rewrite plot_cell_None by apply lookup_insert_eq. reflexivity.
  - now rewrite lookup_insert_ne.
  - intros x Hx. now rewrite lookup_insert_ne.
  - apply plot_cell_draws_iff.
  - apply plot_cell_draws_iff.
Qed.

Lemma plot_branch_state data s :
  vars (snd (plot_branch data s)) =
    <["t" := VInt 0]> (<["v" := VInt 0]> (<["axes" := VObject "ndarray of Axes"]>
      (<["f" := VObject "Figure"]> (vars s)))) /\
  stdout (snd (plot_branch data s)) = stdout s.
Proof.
  unfold plot_branch.
  destruct data as [| | |a|]; [| | |destruct (column a 0), (row a 0)|];
    cbv [bind draw assign raise]; simpl; split; reflexivity.
Qed.

(** X14: Whichever branch runs, and whether or not it raises, the plotting
    cell binds no name other than [f], [axes], [v] and [t], so the data it
    reads are never changed; and it prints nothing, except the reminder
    when [maskedData_normalized] is [None]. *)
Theorem plot_cell_frame (s : nbstate) :
  (forall x : string,
     x <> "f"%string -> x <> "axes"%string -> x <> "v"%string -> x <> "t"%string ->
     vars (snd (plot_cell s)) !! x = vars s !! x) /\
  (stdout (snd (plot_cell s)) = stdout s \/
   (vars s !! "maskedData_normalized" = Some VNone /\
    stdout (snd (plot_cell s)) = stdout s ++ [reminder])).
Proof.
  unfold plot_cell, bind, get_var.
  destruct (vars s !! "maskedData_normalized") as [data|] eqn:E; lazy beta iota.
  - destruct (plot_branch_state data s) as [Hvars Hout].
    destruct data; lazy beta iota;
      try (split; [intros x Hf Ha Hv Ht; rewrite Hvars;
                   now rewrite !lookup_insert_ne by congruence
                  |left; exact Hout]).
    split; [reflexivity|]. now right.
  - split; [reflexivity|now left].
Qed.

End Ex7.

(** ** Notebook 02, section 4: z-scoring with [StandardScaler]

    The cell calls [preprocessing.StandardScaler().fit(maskedData)] and
    [scaler.transform(maskedData)], then checks the result with
    [np.mean(.., axis=0)] and [np.std(.., axis=0)].  scikit-learn's fit
    stores the per-column mean and the per-column population standard
    deviation, in which a zero is replaced by one; transform computes
    [(X - mean_) / scale_].  Arithmetic is exact: the entries are real
    numbers. *)

Module ZScore.
Local Open Scope R_scope.

Definition matrix : Type := list (list R).

Definition rsum (l : list R) : R := fold_right Rplus 0 l.

(** [np.mean] of one column. *)
Definition mean (l : list R) : R := rsum l / INR (List.length l).

(** [np.var] of one column (divisor [n], as numpy and scikit-learn use). *)
Definition var (l : list R) : R := mean (List.map (fun x => (x - mean l) ^ 2) l).

(** [np.std] of one column. *)
Definition std (l : list R) : R := sqrt (var l).

(** [X[:, j]] *)
Definition col (X : matrix) (j : nat) : list R := List.map (fun r => nth j r 0) X.

(** [X.shape[1]] *)
Definition n_features (X : matrix) : nat :=
  match X with
  | [] => O
  | r :: _ => List.length r
  end.

(** A numpy array has rows of one length. *)
Definition rectangular (X : matrix) : bool :=
  forallb (fun r => Nat.eqb (List.length r) (n_features X)) X.

Record scaler : Type := Scaler {
  mean_ : list R;
  scale_ : list R
}.

(** scikit-learn's [_handle_zeros_in_scale]: a zero scale becomes one. *)
Definition handle_zeros_in_scale (s : R) : R :=
  if Req_dec_T s 0 then 1 else s.

(** [StandardScaler().fit(X)]; an array without samples or without
    features is rejected with ValueError. *)
Definition fit (X : matrix) : option scaler :=
  match X with
  | [] => None
  | r :: _ =>
      match r with
      | [] => None
      | _ :: _ =>
          let js := seq 0 (n_features X) in
          Some (Scaler (List.map (fun j => mean (col X j)) js)
                       (List.map (fun j => handle_zeros_in_scale (std (col X j))) js))
      end
  end.

(** One row of [(X - mean_) / scale_]. *)
Definition scale_row (sc : scaler) (r : list R) : list R :=
  List.map (fun j => (nth j r 0 - nth j (mean_ sc) 0) / nth j (scale_ sc) 0)
           (seq 0 (List.length r)).

(** [scaler.transform(X)]; a feature count other than the fitted one is
    rejected with ValueError. *)
Definition transform (sc : scaler) (X : matrix) : option matrix :=
  if forallb (fun r => Nat.eqb (List.length r) (List.length (mean_ sc))) X
  then Some (List.map (scale_row sc) X)
  else None.

(** [StandardScaler().fit_transform(X)] *)
Definition fit_transform (X : matrix) : option matrix :=
  match fit X with
  | None => None
  | Some sc => transform sc X
  end.

(** The check cell: [voxel_mean = np.mean(Z, axis=0)] and
    [voxel_std = np.std(Z, axis=0)]. *)
Definition voxel_mean (Z : matrix) : list R :=
  List.map (fun j => mean (col Z j)) (seq 0 (n_features Z)).

Definition voxel_std (Z : matrix) : list R :=
  List.map (fun j => std (col Z j)) (seq 0 (n_features Z)).

(** All values of a column are equal. *)
Definition constant (l : list R) : Prop :=
  forall x y, In x l -> In y l -> x = y.

(** *** Sums, means and variances of affine images *)

Lemma rsum_nil : rsum [] = 0.
Proof. reflexivity. Qed.

Lemma rsum_cons (x : R) (l : list R) : rsum (x :: l) = x + rsum l.
Proof. reflexivity. Qed.

Lemma rsum_affine (m s : R) (l : list R) :
  rsum (List.map (fun x => (x - m) / s) l) = (rsum l - INR (List.length l) * m) / s.
Proof.
  induction l as [|x l IH]; cbn [List.map List.length].
  - rewrite rsum_nil. simpl. unfold Rdiv. ring.
  - rewrite !rsum_cons, IH, S_INR. unfold Rdiv. ring.
Qed.

Lemma INR_length_nonzero (l : list R) : l <> [] -> INR (List.length l) <> 0.
Proof. intros H. destruct l; [congruence|]. apply not_0_INR. simpl. lia. Qed.

Lemma mean_affine (m s : R) (l : list R) :
  l <> [] ->
  mean (List.map (fun x => (x - m) / s) l) = (mean l - m) / s.
Proof.
  intros Hl. unfold mean. rewrite rsum_affine, length_map.
  pose proof (INR_length_nonzero l Hl) as Hn.
  set (n := INR (List.length l)) in *.
  transitivity ((rsum l * / n - m * (n * / n)) * / s); [unfold Rdiv; ring|].
  rewrite Rinv_r by exact Hn. unfold Rdiv. ring.
Qed.

Lemma rsum_scale (c : R) (l : list R) (f : R -> R) :
  rsum (List.map (fun x => f x * c) l) = rsum (List.map f l) * c.
Proof.
  induction l as [|x l IH]; cbn [List.map]; [rewrite !rsum_nil; ring|].
  rewrite !rsum_cons, IH. ring.
Qed.

Lemma rsum_ext (f g : R -> R) (l : list R) :
  (forall x, In x l -> f x = g x) -> rsum (List.map f l) = rsum (List.map g l).
Proof.
  induction l as [|x l IH]; intros H; cbn [List.map]; [reflexivity|].
  rewrite !rsum_cons, (H x) by now left. rewrite IH; [reflexivity|].
  intros y Hy. apply H. now right.
Qed.

Lemma rsum_squares_nonneg (m : R) (l : list R) :
  0 <= rsum (List.map (fun x => (x - m) ^ 2) l).
Proof.
  induction l as [|x l IH]; cbn [List.map]; [rewrite rsum_nil; lra|].
  rewrite rsum_cons. pose proof (pow2_ge_0 (x - m)) as H. lra.
Qed.

Lemma rsum_squares_zero (m : R) (l : list R) :
  rsum (List.map (fun x => (x - m) ^ 2) l) = 0 -> forall x, In x l -> x = m.
Proof.
  induction l as [|y l IH]; cbn [List.map]; [intros _ x []|].
  rewrite rsum_cons. intros H x Hx.
  pose proof (rsum_squares_nonneg m l) as Hl.
  pose proof (pow2_ge_0 (y - m)) as Hy.
  destruct Hx as [<-|Hx].
  - assert (Hz : (y - m) ^ 2 = 0) by lra.
    simpl in Hz. rewrite Rmult_1_r in Hz. apply Rmult_integral in Hz. lra.
  - apply IH; [lra|exact Hx].
Qed.

Lemma var_nonneg (l : list R) : 0 <= var l.
Proof.
  unfold var, mean. rewrite length_map. destruct l as [|x l].
  - simpl. unfold Rdiv. rewrite Rinv_0. lra.
  - apply Rmult_le_pos; [apply rsum_squares_nonneg|].
    left. apply Rinv_0_lt_compat, lt_0_INR. simpl. lia.
Qed.

Lemma var_zero_constant (l : list R) : l <> [] -> var l = 0 -> constant l.
Proof.
  intros Hl Hv. unfold var, mean at 1 in Hv. rewrite length_map in Hv.
  pose proof (INR_length_nonzero l Hl) as Hn.
  assert (Hs : rsum (List.map (fun x => (x - mean l) ^ 2) l) = 0).
  { unfold Rdiv in Hv. apply Rmult_integral in Hv as [Hv|Hv]; [exact Hv|].
    exfalso. revert Hv. now apply Rinv_neq_0_compat. }
  intros x y Hx Hy.
  rewrite (rsum_squares_zero _ _ Hs x Hx), (rsum_squares_zero _ _ Hs y Hy). reflexivity.
Qed.

Lemma rsum_constant (c : R) (l : list R) :
  (forall x, In x l -> x = c) -> rsum l = INR (List.length l) * c.
Proof.
  induction l as [|x l IH]; intros H; cbn [List.length].
  - rewrite rsum_nil. simpl. ring.
  - rewrite rsum_cons, S_INR, IH by (intros y Hy; apply H; now right).
    rewrite (H x) by now left. ring.
Qed.

Lemma mean_constant (c : R) (l : list R) :
  l <> [] -> (forall x, In x l -> x = c) -> mean l = c.
Proof.
  intros Hl H. unfold mean. rewrite (rsum_constant c l H).
  pose proof (INR_length_nonzero l Hl). now field.
Qed.

Lemma constant_mean (l : list R) :
  l <> [] -> constant l -> forall x, In x l -> x = mean l.
Proof.
  intros Hl Hc x Hx. symmetry. apply mean_constant; [exact Hl|].
  intros y Hy. now apply Hc.
Qed.

Lemma var_all_zero (l : list R) : (forall x, In x l -> x = 0) -> var l = 0.
Proof.
  intros H. destruct l as [|x0 l0] eqn:El.
  - unfold var, mean. simpl. unfold Rdiv. ring.
  - rewrite <- El in *. assert (Hl : l <> []) by (rewrite El; discriminate).
    assert (Hm : mean l = 0) by now apply mean_constant.
    unfold var. rewrite Hm. apply mean_constant.
    + rewrite El. discriminate.
    + intros y Hy. apply in_map_iff in Hy as (x & <- & Hx). rewrite (H x Hx). ring.
Qed.

Lemma var_affine (s : R) (l : list R) :
  l <> [] ->
  var (List.map (fun x => (x - mean l) / s) l) = var l * (/ s * / s).
Proof.
  intros Hl. unfold var at 1.
  rewrite (mean_affine (mean l) s l Hl).
  replace ((mean l - mean l) / s) with 0 by (unfold Rdiv; ring).
  rewrite List.map_map. unfold mean at 1. rewrite length_map.
  rewrite (rsum_ext _ (fun x => (x - mean l) ^ 2 * (/ s * / s)))
    by (intros x _; unfold Rdiv; ring).
  rewrite (rsum_scale (/ s * / s) l (fun x => (x - mean l) ^ 2)).
  unfold var, mean at 2. rewrite length_map. unfold Rdiv. ring.
Qed.

(** *** Columns of the transformed matrix *)

Lemma nth_map_seq (f : nat -> R) (n j : nat) :
  (j < n)%nat -> nth j (List.map f (seq 0 n)) 0 = f j.
Proof.
  intros Hj. rewrite (nth_indep _ 0 (f O)) by (rewrite length_map, length_seq; exact Hj).
  rewrite map_nth, seq_nth by exact Hj. reflexivity.
Qed.

Lemma rectangular_rows (X : matrix) (r : list R) :
  rectangular X = true -> In r X -> List.length r = n_features X.
Proof.
  unfold rectangular. rewrite forallb_forall. intros H Hr.
  now apply Nat.eqb_eq, H.
Qed.

(** The scale that [fit] stores for a column. *)
Definition col_scale (c : list R) : R := handle_zeros_in_scale (std c).

(** The z-scored image of a column. *)
Definition zcol (c : list R) : list R :=
  List.map (fun x => (x - mean c) / col_scale c) c.

Lemma fit_transform_cols (X : matrix) :
  X <> [] -> rectangular X = true -> (0 < n_features X)%nat ->
  exists Z, fit_transform X = Some Z /\
            forall j, (j < n_features X)%nat -> col Z j = zcol (col X j).
Proof.
  intros HX Hrect Hn.
  set (sc := Scaler (List.map (fun j => mean (col X j)) (seq 0 (n_features X)))
                    (List.map (fun j => col_scale (col X j)) (seq 0 (n_features X)))).
  assert (Hfit : fit X = Some sc).
  { destruct X as [|r X']; [congruence|]. destruct r as [|x r']; [simpl in Hn; lia|].
    reflexivity. }
  exists (List.map (scale_row sc) X). split.
  - unfold fit_transform, transform. rewrite Hfit.
    replace (forallb _ X) with true; [reflexivity|]. symmetry.
    apply forallb_forall. intros r Hr. apply Nat.eqb_eq.
    simpl. rewrite length_map, length_seq. now apply rectangular_rows.
  - intros j Hj. unfold col, zcol. rewrite !List.map_map.
    apply map_ext_in. intros r Hr.
    pose proof (rectangular_rows X r Hrect Hr) as Hlen.
    unfold scale_row. rewrite Hlen, nth_map_seq by exact Hj.
    simpl mean_. simpl scale_. rewrite !nth_map_seq by exact Hj. reflexivity.
Qed.

Lemma col_nonempty (X : matrix) (j : nat) : X <> [] -> col X j <> [].
Proof. destruct X; [congruence|discriminate]. Qed.

Lemma col_scale_nonzero (c : list R) : col_scale c <> 0.
Proof.
  unfold col_scale, handle_zeros_in_scale.
  destruct (Req_dec_T (std c) 0); [lra|assumption].
Qed.

Lemma zcol_mean (c : list R) : c <> [] -> mean (zcol c) = 0.
Proof.
  intros Hc. unfold zcol. rewrite mean_affine by exact Hc. unfold Rdiv. ring.
Qed.

Lemma zcol_std_nonconstant (c : list R) :
  c <> [] -> ~ constant c -> std (zcol c) = 1.
Proof.
  intros Hc Hnc.
  assert (Hv : var c <> 0) by (intros Hv; apply Hnc; now apply var_zero_constant).
  assert (Hs : std c <> 0).
  { intros Hs. apply Hv. apply sqrt_eq_0; [apply var_nonneg|exact Hs]. }
  assert (Hscale : col_scale c = std c).
  { unfold col_scale, handle_zeros_in_scale. destruct (Req_dec_T (std c) 0); [contradiction|reflexivity]. }
  unfold std at 1, zcol. rewrite Hscale, var_affine by exact Hc.
  replace (var c * (/ std c * / std c)) with 1; [apply sqrt_1|].
  rewrite <- (sqrt_sqrt (var c) (var_nonneg c)) at 1. fold (std c). now field.
Qed.

Lemma zcol_constant_zero (c : list R) :
  c <> [] -> constant c -> forall z, In z (zcol c) -> z = 0.
Proof.
  intros Hc Hconst z Hz. unfold zcol in Hz.
  apply in_map_iff in Hz as (x & <- & Hx).
  rewrite <- (constant_mean c Hc Hconst x Hx). unfold Rdiv. ring.
Qed.

Lemma zcol_std_constant (c : list R) :
  c <> [] -> constant c -> std (zcol c) = 0.
Proof.
  intros Hc Hconst. unfold std.
  rewrite var_all_zero by now apply zcol_constant_zero. apply sqrt_0.
Qed.

Lemma fit_transform_n_features (X Z : matrix) :
  fit_transform X = Some Z -> n_features Z = n_features X.
Proof.
  unfold fit_transform, transform. destruct (fit X) as [sc|]; [|discriminate].
  destruct (forallb _ X); [|discriminate]. intros [= <-].
  destruct X as [|r X]; [reflexivity|]. simpl. unfold scale_row.
  now rewrite length_map, length_seq.
Qed.

(** What the check cell prints for voxel [j]. *)
Lemma check_cell_values (X Z : matrix) (j : nat) :
  X <> [] -> rectangular X = true -> (j < n_features X)%nat ->
  fit_transform X = Some Z ->
  nth j (voxel_mean Z) 0 = 0 /\
  (~ constant (col X j) -> nth j (voxel_std Z) 0 = 1) /\
  (constant (col X j) -> nth j (voxel_std Z) 0 = 0).
Proof.
  intros HX Hrect Hj HZ.
  destruct (fit_transform_cols X HX Hrect) as (Z' & HZ' & Hcols); [lia|].
  assert (Z' = Z) by congruence. subst Z'.
  unfold voxel_mean, voxel_std.
  rewrite (fit_transform_n_features X Z HZ), !nth_map_seq by exact Hj.
  rewrite (Hcols j Hj). pose proof (col_nonempty X j HX) as Hc.
  split; [now apply zcol_mean|].
  split; intros H; [now apply zcol_std_nonconstant|now apply zcol_std_constant].
Qed.





(** *** Further properties of the z-scoring step *)

Lemma constant_var_zero (c : list R) : constant c -> var c = 0.
Proof.
  intros Hc. destruct c as [|x0 c0] eqn:Ec.
  - unfold var, mean. simpl. unfold Rdiv. ring.
  - rewrite <- Ec in *. assert (Hne : c <> []) by (rewrite Ec; discriminate).
    unfold var. apply mean_constant.
    + rewrite Ec. discriminate.
    + intros y Hy. apply in_map_iff in Hy as (x & <- & Hx).
      rewrite <- (constant_mean c Hne Hc x Hx). ring.
Qed.

Lemma std_nonneg (c : list R) : 0 <= std c.
Proof. apply sqrt_pos. Qed.

Lemma col_scale_pos (c : list R) : 0 < col_scale c.
Proof.
  pose proof (std_nonneg c) as H. pose proof (col_scale_nonzero c) as Hne.
  unfold col_scale, handle_zeros_in_scale in *.
  destruct (Req_dec_T (std c) 0); lra.
Qed.

(** The scale of a z-scored column is one, whether the column was
    constant or not. *)
Lemma zcol_scale (c : list R) : c <> [] -> col_scale (zcol c) = 1.
Proof.
  intros Hc. unfold col_scale, handle_zeros_in_scale.
  destruct (Req_dec_T (var c) 0) as [Hv|Hv].
  - rewrite (zcol_std_constant c Hc (var_zero_constant c Hc Hv)).
    destruct (Req_dec_T 0 0); [reflexivity|contradiction].
  - rewrite (zcol_std_nonconstant c Hc).
    + destruct (Req_dec_T 1 0); [lra|reflexivity].
    + intros Hconst. apply Hv. now apply constant_var_zero.
Qed.

Lemma zcol_nonempty (c : list R) : c <> [] -> zcol c <> [].
Proof. destruct c; [congruence|discriminate]. Qed.

Lemma zcol_idempotent (c : list R) : c <> [] -> zcol (zcol c) = zcol c.
Proof.
  intros Hc. unfold zcol at 1.
  rewrite (zcol_mean c Hc), (zcol_scale c Hc).
  rewrite <- (List.map_id (zcol c)) at 2. apply map_ext. intros z. field.
Qed.

(** Two arrays of one shape with equal columns are equal. *)
Lemma matrix_ext (n : nat) (Z Z' : matrix) :
  List.length Z = List.length Z' ->
  (forall r, In r Z -> List.length r = n) ->
  (forall r, In r Z' -> List.length r = n) ->
  (forall j, (j < n)%nat -> col Z j = col Z' j) ->
  Z = Z'.
Proof.
  revert Z'. induction Z as [|r Z IH]; intros [|r' Z'] Hlen HZ HZ' Hcols;
    try discriminate; [reflexivity|].
  f_equal.
  - apply (nth_ext r r' 0 0).
    + rewrite (HZ r), (HZ' r') by now left. reflexivity.
    + intros j Hj. rewrite (HZ r) in Hj by now left.
      specialize (Hcols j Hj). unfold col in Hcols. simpl in Hcols. congruence.
  - apply IH.
    + simpl in Hlen. lia.
    + intros x Hx. apply HZ. now right.
    + intros x Hx. apply HZ'. now right.
    + intros j Hj. specialize (Hcols j Hj). unfold col in *. simpl in Hcols. congruence.
Qed.

Lemma fit_transform_inv (X Z : matrix) :
  fit_transform X = Some Z ->
  X <> [] /\ rectangular X = true /\ (0 < n_features X)%nat.
Proof.
  unfold fit_transform, transform, fit.
  destruct X as [|r X']; [discriminate|]. destruct r as [|x r']; [discriminate|].
  cbn [mean_]. rewrite length_map, length_seq.
  destruct (forallb _ _) eqn:Hall; [|discriminate]. intros _.
  split; [discriminate|]. split; [exact Hall|]. simpl. lia.
Qed.

Lemma fit_transform_rows (X Z : matrix) :
  fit_transform X = Some Z ->
  List.length Z = List.length X /\
  forall r, In r Z -> List.length r = n_features X.
Proof.
  intros HZ. destruct (fit_transform_inv X Z HZ) as (HX & Hrect & Hn).
  revert HZ. unfold fit_transform, transform. destruct (fit X) as [sc|]; [|discriminate].
  destruct (forallb _ X); [|discriminate]. intros [= <-].
  split; [apply length_map|]. intros r Hr.
  apply in_map_iff in Hr as (x & <- & Hx). unfold scale_row.
  rewrite length_map, length_seq. now apply rectangular_rows.
Qed.

Lemma rows_rectangular (Z : matrix) (n : nat) :
  Z <> [] -> (forall r, In r Z -> List.length r = n) ->
  rectangular Z = true /\ n_features Z = n.
Proof.
  intros HZ Hrows. assert (Hn : n_features Z = n).
  { destruct Z as [|r Z']; [congruence|]. simpl. apply Hrows. now left. }
  split; [|exact Hn]. unfold rectangular. apply forallb_forall. intros r Hr.
  apply Nat.eqb_eq. rewrite Hn. now apply Hrows.
Qed.

(** X4: The z-scoring step succeeds exactly on an array with at least one
    time point, at least one voxel and rows of one length, and it returns
    an array of the same shape. *)
Theorem zscore_succeeds_iff_shape (X : matrix) :
  (is_Some (fit_transform X) <->
   X <> [] /\ rectangular X = true /\ (0 < n_features X)%nat) /\
  (forall Z, fit_transform X = Some Z ->
     List.length Z = List.length X /\
     rectangular Z = true /\
     n_features Z = n_features X).
Proof.
  split.
  - split.
    + intros [Z HZ]. now apply (fit_transform_inv X Z).
    + intros (HX & Hrect & Hn).
      destruct (fit_transform_cols X HX Hrect Hn) as (Z & HZ & _). eauto.
  - intros Z HZ. destruct (fit_transform_rows X Z HZ) as [Hlen Hrows].
    destruct (fit_transform_inv X Z HZ) as (HX & _ & _).
    split; [exact Hlen|]. apply rows_rectangular; [|exact Hrows].
    destruct Z; [destruct X; [congruence|discriminate]|discriminate].
Qed.

(** X5: Z-scoring an array that is already z-scored returns it unchanged. *)
Theorem zscore_idempotent (X Z : matrix) :
  fit_transform X = Some Z -> fit_transform Z = Some Z.
Proof.
  intros HZ. destruct (fit_transform_inv X Z HZ) as (HX & Hrect & Hn).
  destruct (fit_transform_rows X Z HZ) as [Hlen Hrows].
  assert (HZne : Z <> []) by (destruct Z; [destruct X; [congruence|discriminate]|discriminate]).
  destruct (rows_rectangular Z _ HZne Hrows) as [HrectZ HnZ].
  destruct (fit_transform_cols X HX Hrect Hn) as (Z0 & HZ0 & Hcols).
  assert (Z0 = Z) by congruence. subst Z0.
  destruct (fit_transform_cols Z HZne HrectZ) as (Z' & HZ' & Hcols'); [lia|].
  rewrite HZ'. f_equal.
  destruct (fit_transform_rows Z Z' HZ') as [Hlen' Hrows'].
  apply (matrix_ext (n_features X)).
  - exact Hlen'.
  - intros r Hr. rewrite <- HnZ. now apply Hrows'.
  - exact Hrows.
  - intros j Hj. rewrite (Hcols' j) by lia. rewrite (Hcols j Hj).
    apply zcol_idempotent. now apply col_nonempty.
Qed.

Lemma zscore_idempotent_witness :
  exists Z, fit_transform [[1; 5]; [3; 5]] = Some Z /\ fit_transform Z = Some Z.
Proof.
  destruct (fit_transform_cols [[1; 5]; [3; 5]]) as (Z & HZ & _);
    [discriminate|reflexivity|simpl; lia|].
  exists Z. split; [exact HZ|]. exact (zscore_idempotent _ Z HZ).
Defined.

(** *** Change of unit and offset *)

Definition affine (a b : R) (x : R) : R := a * x + b.

Lemma rsum_map_affine (a b : R) (l : list R) :
  rsum (List.map (affine a b) l) = a * rsum l + INR (List.length l) * b.
Proof.
  unfold affine. induction l as [|x l IH]; cbn [List.map List.length].
  - rewrite rsum_nil. simpl. ring.
  - rewrite !rsum_cons, IH, S_INR. ring.
Qed.

Lemma mean_map_affine (a b : R) (l : list R) :
  l <> [] -> mean (List.map (affine a b) l) = a * mean l + b.
Proof.
  intros Hl. unfold mean. rewrite rsum_map_affine, length_map.
  pose proof (INR_length_nonzero l Hl). now field.
Qed.

Lemma var_map_affine (a b : R) (l : list R) :
  l <> [] -> var (List.map (affine a b) l) = a * a * var l.
Proof.
  intros Hl. unfold var. rewrite (mean_map_affine a b l Hl), List.map_map.
  unfold mean at 1 3. rewrite !length_map.
  rewrite (rsum_ext _ (fun x => (x - mean l) ^ 2 * (a * a)))
    by (intros x _; unfold affine; ring).
  rewrite (rsum_scale (a * a) l (fun x => (x - mean l) ^ 2)). unfold Rdiv. ring.
Qed.

Lemma std_map_affine (a b : R) (l : list R) :
  0 < a -> l <> [] -> std (List.map (affine a b) l) = a * std l.
Proof.
  intros Ha Hl. unfold std. rewrite (var_map_affine a b l Hl).
  rewrite sqrt_mult; [|nra|apply var_nonneg].
  rewrite sqrt_square by lra. reflexivity.
Qed.

Lemma zcol_affine (a b : R) (c : list R) :
  0 < a -> c <> [] -> zcol (List.map (affine a b) c) = zcol c.
Proof.
  intros Ha Hc. unfold zcol at 1. rewrite List.map_map, (mean_map_affine a b c Hc).
  unfold zcol. apply map_ext_in. intros x Hx.
  unfold col_scale, handle_zeros_in_scale. rewrite (std_map_affine a b c Ha Hc).
  destruct (Req_dec_T (std c) 0) as [Hs|Hs].
  - rewrite Hs, Rmult_0_r. destruct (Req_dec_T 0 0); [|contradiction].
    assert (Hv : var c = 0) by (apply sqrt_eq_0; [apply var_nonneg|exact Hs]).
    rewrite (constant_mean c Hc (var_zero_constant c Hc Hv) x Hx).
    unfold affine, Rdiv. ring.
  - destruct (Req_dec_T (a * std c) 0) as [H0|H0].
    + apply Rmult_integral in H0. lra.
    + unfold affine. field. split; [exact Hs|lra].
Qed.

Definition rescale (a b : R) (X : matrix) : matrix := List.map (List.map (affine a b)) X.

Lemma rescale_shape (a b : R) (X : matrix) :
  (rescale a b X <> [] <-> X <> []) /\
  rectangular (rescale a b X) = rectangular X /\
  n_features (rescale a b X) = n_features X.
Proof.
  unfold rescale. split; [|split].
  - destruct X; simpl; split; congruence.
  - assert (Hn : n_features (List.map (List.map (affine a b)) X) = n_features X)
      by (destruct X; [reflexivity|simpl; apply length_map]).
    unfold rectangular. rewrite Hn. clear Hn. generalize (n_features X). intros n.
    induction X as [|r X IH]; [reflexivity|].
    cbn [List.map forallb]. now rewrite length_map, IH.
  - destruct X; [reflexivity|simpl; apply length_map].
Qed.

Lemma rescale_col (a b : R) (X : matrix) (j : nat) :
  rectangular X = true -> (j < n_features X)%nat ->
  col (rescale a b X) j = List.map (affine a b) (col X j).
Proof.
  intros Hrect Hj. unfold col, rescale. rewrite !List.map_map.
  apply map_ext_in. intros r Hr.
  rewrite (nth_indep _ 0 (affine a b 0))
    by (rewrite length_map, (rectangular_rows X r Hrect Hr); exact Hj).
  apply map_nth.
Qed.

(** X6: Measuring every value in another unit and from another origin
    ([a * x + b] with [a] positive) does not change the z-scored array. *)
Theorem zscore_affine_invariant (a b : R) (X : matrix) :
  0 < a -> fit_transform (rescale a b X) = fit_transform X.
Proof.
  intros Ha. destruct (rescale_shape a b X) as (Hne & Hrect & Hn).
  destruct (fit_transform X) as [Z|] eqn:HZ.
  - destruct (fit_transform_inv X Z HZ) as (HX & HrectX & HnX).
    destruct (fit_transform_cols X HX HrectX HnX) as (Z0 & HZ0 & Hcols).
    assert (Z0 = Z) by congruence. subst Z0.
    destruct (fit_transform_cols (rescale a b X)) as (Z' & HZ' & Hcols');
      [now apply Hne|now rewrite Hrect|now rewrite Hn|].
    rewrite HZ'. f_equal.
    destruct (fit_transform_rows X Z HZ) as [Hlen Hrows].
    destruct (fit_transform_rows _ Z' HZ') as [Hlen' Hrows'].
    apply (matrix_ext (n_features X)).
    + rewrite Hlen', Hlen. unfold rescale. apply length_map.
    + intros r Hr. rewrite <- Hn. now apply Hrows'.
    + exact Hrows.
    + intros j Hj. rewrite (Hcols' j) by (rewrite Hn; exact Hj).
      rewrite (Hcols j Hj), (rescale_col a b X j HrectX Hj).
      apply zcol_affine; [exact Ha|now apply col_nonempty].
  - destruct (fit_transform (rescale a b X)) as [Z'|] eqn:HZ'; [|reflexivity].
    destruct (fit_transform_inv _ Z' HZ') as (HX' & Hrect' & Hn').
    destruct (fit_transform_cols X) as (Z & HZ0 & _);
      [now apply Hne|now rewrite <- Hrect|now rewrite <- Hn|]. congruence.
Qed.

Lemma zscore_affine_invariant_witness :
  fit_transform (rescale 2 10 [[1; 5]; [3; 5]]) = fit_transform [[1; 5]; [3; 5]].
Proof. apply (zscore_affine_invariant 2 10 [[1; 5]; [3; 5]]). lra. Defined.

(** X7: In exact arithmetic, z-scoring keeps the order of a voxel's values
    over time: if the value at time [t] is at most (or less than) the
    value at time [t'] before z-scoring, it is so after. *)
Theorem zscore_monotone (X Z : matrix) (j t t' : nat) :
  fit_transform X = Some Z ->
  (j < n_features X)%nat -> (t < List.length X)%nat -> (t' < List.length X)%nat ->
  (nth t (col X j) 0 <= nth t' (col X j) 0 ->
   nth t (col Z j) 0 <= nth t' (col Z j) 0) /\
  (nth t (col X j) 0 < nth t' (col X j) 0 ->
   nth t (col Z j) 0 < nth t' (col Z j) 0).
Proof.
  intros HZ Hj Ht Ht'. destruct (fit_transform_inv X Z HZ) as (HX & Hrect & Hn).
  destruct (fit_transform_cols X HX Hrect Hn) as (Z0 & HZ0 & Hcols).
  assert (Z0 = Z) by congruence. subst Z0. rewrite (Hcols j Hj).
  set (c := col X j). assert (Hlen : List.length c = List.length X) by apply length_map.
  set (f := fun x => (x - mean c) / col_scale c).
  assert (Hnth : forall k, (k < List.length X)%nat -> nth k (zcol c) 0 = f (nth k c 0)).
  { intros k Hk. unfold zcol. fold f.
    rewrite (nth_indep _ 0 (f 0)) by (rewrite length_map; lia). apply map_nth. }
  rewrite !Hnth by assumption. unfold f.
  pose proof (col_scale_pos c) as Hpos.
  split; intros Hle.
  - apply Rmult_le_compat_r; [left; now apply Rinv_0_lt_compat|lra].
  - apply Rmult_lt_compat_r; [now apply Rinv_0_lt_compat|lra].
Qed.

Lemma zscore_monotone_witness :
  exists Z, fit_transform [[1; 5]; [3; 5]] = Some Z /\
    (nth 0 (col [[1; 5]; [3; 5]] 0) 0 <= nth 1 (col [[1; 5]; [3; 5]] 0) 0 ->
     nth 0 (col Z 0) 0 <= nth 1 (col Z 0) 0) /\
    (nth 0 (col [[1; 5]; [3; 5]] 0) 0 < nth 1 (col [[1; 5]; [3; 5]] 0) 0 ->
     nth 0 (col Z 0) 0 < nth 1 (col Z 0) 0).
Proof.
  destruct (fit_transform_cols [[1; 5]; [3; 5]]) as (Z & HZ & _);
    [discriminate|reflexivity|simpl; lia|].
  exists Z. split; [exact HZ|].
  apply (zscore_monotone [[1; 5]; [3; 5]] Z 0 0 1 HZ); simpl; lia.
Defined.

End ZScore.

(** ** Notebook 02, section 4.2: the averaged evoked response

    After the indexing the cell computes
    [face_diff = face_activity - np.mean(baseline_activity)], the same for
    the scene condition, and draws
    [plt.errorbar([1, 2], [np.mean(face_diff), np.mean(scene_diff)],
                  [np.std(face_diff), np.std(scene_diff)])]. *)

Module EvokedStats.
Import ZScore.
Local Open Scope R_scope.

(** [a - m] for an array and a scalar. *)
Definition sub_scalar (a : list R) (m : R) : list R := List.map (fun x => x - m) a.

(** [np.mean(cond_activity - np.mean(baseline_activity))]; [None] stands
    for numpy's nan, which the mean of an empty array is. *)
Definition diff_mean (cond_activity baseline_activity : list R) : option R :=
  match cond_activity, baseline_activity with
  | [], _ => None
  | _, [] => None
  | _ :: _, _ :: _ => Some (mean (sub_scalar cond_activity (mean baseline_activity)))
  end.

(** [np.std(cond_activity - np.mean(baseline_activity))] *)
Definition diff_std (cond_activity baseline_activity : list R) : option R :=
  match cond_activity, baseline_activity with
  | [], _ => None
  | _, [] => None
  | _ :: _, _ :: _ => Some (std (sub_scalar cond_activity (mean baseline_activity)))
  end.

(** The heights and the error bars handed to [plt.errorbar]. *)
Definition errorbar_cell (r : @Evoked.evoked R) : list (option R) * list (option R) :=
  ([diff_mean (Evoked.face_activity r) (Evoked.baseline_activity r);
    diff_mean (Evoked.scene_activity r) (Evoked.baseline_activity r)],
   [diff_std (Evoked.face_activity r) (Evoked.baseline_activity r);
    diff_std (Evoked.scene_activity r) (Evoked.baseline_activity r)]).

Lemma rsum_sub_scalar (l : list R) (m : R) :
  rsum (sub_scalar l m) = rsum l - INR (List.length l) * m.
Proof.
  unfold sub_scalar. induction l as [|x l IH]; cbn [List.map List.length].
  - rewrite rsum_nil. simpl. ring.
  - rewrite !rsum_cons, IH, S_INR. ring.
Qed.

Lemma mean_sub_scalar (l : list R) (m : R) :
  l <> [] -> mean (sub_scalar l m) = mean l - m.
Proof.
  intros Hl. unfold mean. rewrite rsum_sub_scalar. unfold sub_scalar.
  rewrite length_map. pose proof (INR_length_nonzero l Hl). now field.
Qed.

Lemma var_sub_scalar (l : list R) (m : R) :
  l <> [] -> var (sub_scalar l m) = var l.
Proof.
  intros Hl. unfold var. rewrite (mean_sub_scalar l m Hl).
  unfold sub_scalar at 1. rewrite List.map_map. unfold mean at 1 3.
  rewrite !length_map. f_equal. apply rsum_ext. intros x _. ring.
Qed.

(** X3: For non-empty face, scene and baseline activity, the error bars are
    the standard deviations of the conditions themselves, and the
    difference between the two plotted heights is the difference between
    the condition means: the baseline cancels. *)
Theorem errorbar_baseline_cancels (r : @Evoked.evoked R) :
  Evoked.face_activity r <> [] ->
  Evoked.scene_activity r <> [] ->
  Evoked.baseline_activity r <> [] ->
  exists face_height scene_height,
    errorbar_cell r =
      ([Some face_height; Some scene_height],
       [Some (std (Evoked.face_activity r)); Some (std (Evoked.scene_activity r))]) /\
    face_height = mean (Evoked.face_activity r) - mean (Evoked.baseline_activity r) /\
    scene_height = mean (Evoked.scene_activity r) - mean (Evoked.baseline_activity r) /\
    face_height - scene_height =
      mean (Evoked.face_activity r) - mean (Evoked.scene_activity r).
Proof.
  destruct r as [fa sa ba]. simpl. intros Hfa Hsa Hba.
  exists (mean fa - mean ba), (mean sa - mean ba).
  split; [|split; [reflexivity|split; [reflexivity|ring]]].
  unfold errorbar_cell, diff_mean, diff_std. simpl.
  destruct fa as [|f fa]; [congruence|]. destruct sa as [|s sa]; [congruence|].
  destruct ba as [|b ba]; [congruence|].
  unfold std. rewrite !mean_sub_scalar, !var_sub_scalar by discriminate. reflexivity.
Qed.

Lemma errorbar_baseline_cancels_witness :
  exists face_height scene_height,
    errorbar_cell (Evoked.Evoked [1; 3] [2] [1]) =
      ([Some face_height; Some scene_height],
       [Some (std [1; 3]); Some (std [2])]) /\
    face_height = mean [1; 3] - mean [1] /\
    scene_height = mean [2] - mean [1] /\
    face_height - scene_height = mean [1; 3] - mean [2].
Proof.
  apply (errorbar_baseline_cancels (Evoked.Evoked [1; 3] [2] [1])); discriminate.
Defined.

(** An empty condition or an empty baseline makes the plotted height nan. *)
Lemma diff_mean_nan (cond_activity baseline_activity : list R) :
  diff_mean cond_activity baseline_activity = None <->
  cond_activity = [] \/ baseline_activity = [].
Proof.
  destruct cond_activity, baseline_activity; simpl; split; intros H;
    try tauto; try discriminate; destruct H; discriminate.
Qed.

End EvokedStats.

(** ** Notebook 02, section 3: applying an ROI mask with [NiftiMasker]

    The cell calls [NiftiMasker(mask_img=mask).fit_transform(epi_data)].
    With the default options nilearn performs no smoothing, detrending or
    standardisation: it checks that the mask is not empty and returns
    [series[mask].T], the time-by-voxel matrix of the voxels at which the
    mask is set, in the scan order of the grid. *)

Module Masker.

Section Masking.
Context {A : Type}.

(** An EPI image: one flattened volume of the voxel grid per time point. *)
Definition image : Type := list (list A).

(** The image and the mask are defined on the same voxel grid. *)
Definition same_grid (epi : image) (mask : list bool) : bool :=
  forallb (fun vol => Nat.eqb (List.length vol) (List.length mask)) epi.

(** The mask has at least one voxel set. *)
Definition has_voxel (mask : list bool) : bool := existsb (fun b => b) mask.

(** [NiftiMasker(mask_img=mask).fit_transform(epi)]: an empty mask is
    rejected with ValueError, and so is an image without a time point; an
    image on another grid would be resampled, which is not modelled. *)
Definition fit_transform (mask : list bool) (epi : image) : option (list (list A)) :=
  if negb (has_voxel mask) then None
  else match epi with
       | [] => None
       | _ :: _ =>
           if same_grid epi mask
           then Some (List.map (fun vol => Np.select_mask vol mask) epi)
           else None
       end.


(** The voxels of the region, in scan order. *)
Definition roi (mask : list bool) : list nat := Np.flatnonzero mask.

Lemma flatnonzero_from_In (s : nat) (mask : list bool) (v : nat) :
  In v (Np.flatnonzero_from s mask) <->
  (s <= v)%nat /\ nth_error mask (v - s) = Some true.
Proof.
  revert s. induction mask as [|b mask IH]; intros s; simpl.
  - split; [tauto|]. intros [_ H]. destruct (v - s)%nat; discriminate.
  - assert (Hstep : (S s <= v)%nat ->
             nth_error (b :: mask) (v - s) = nth_error mask (v - S s)).
    { intros Hv. replace (v - s)%nat with (S (v - S s)) by lia. reflexivity. }
    destruct b; simpl; rewrite IH; split.
    + intros [<-|[Hle Hn]].
      * split; [lia|]. now rewrite Nat.sub_diag.
      * split; [lia|]. now rewrite Hstep.
    + intros [Hle Hn]. destruct (Nat.eq_dec s v) as [->|Hne]; [now left|right].
      split; [lia|]. rewrite <- Hstep by lia. exact Hn.
    + intros [Hle Hn]. split; [lia|]. now rewrite Hstep.
    + intros [Hle Hn]. destruct (Nat.eq_dec s v) as [->|Hne].
      * rewrite Nat.sub_diag in Hn. discriminate.
      * split; [lia|]. rewrite <- Hstep by lia. exact Hn.
Qed.



Lemma select_mask_length (vol : list A) (mask : list bool) (s : nat) :
  List.length vol = List.length mask ->
  List.length (Np.select_mask vol mask) = List.length (Np.flatnonzero_from s mask).
Proof.
  revert vol s. induction mask as [|b mask IH]; intros [|x vol] s Hlen;
    simpl in *; try reflexivity; try discriminate.
  injection Hlen as Hlen. destruct b; simpl; erewrite IH; eauto.
Qed.

Lemma select_mask_nth (vol : list A) (mask : list bool) (s k v : nat) :
  List.length vol = List.length mask ->
  nth_error (Np.flatnonzero_from s mask) k = Some v ->
  nth_error (Np.select_mask vol mask) k = nth_error vol (v - s).
Proof.
  revert vol s k. induction mask as [|b mask IH]; intros [|x vol] s k Hlen Hk;
    simpl in *; try discriminate.
  - destruct k; discriminate.
  - injection Hlen as Hlen.
    assert (Hshift : forall k', nth_error (Np.flatnonzero_from (S s) mask) k' = Some v ->
              nth_error (x :: vol) (v - s) = nth_error vol (v - S s)).
    { intros k' Hk'. apply nth_error_In, flatnonzero_from_In in Hk' as [Hle _].
      replace (v - s)%nat with (S (v - S s)) by lia. reflexivity. }
    destruct b.
    + destruct k as [|k]; simpl in *.
      * injection Hk as <-. now rewrite Nat.sub_diag.
      * rewrite (Hshift k Hk). now apply IH.
    + rewrite (Hshift k Hk). now apply IH.
Qed.

Lemma fit_transform_masks (mask : list bool) (epi : image) :
  same_grid epi mask = true -> has_voxel mask = true -> epi <> [] ->
  fit_transform mask epi = Some (List.map (fun vol => Np.select_mask vol mask) epi).
Proof.
  intros Hgrid Hvox Hne. unfold fit_transform. rewrite Hvox. simpl.
  destruct epi as [|vol epi']; [congruence|]. now rewrite Hgrid.
Qed.


(** *** The whole grid as region, and the voxel plot *)

Lemma select_mask_all_true (vol : list A) :
  Np.select_mask vol (repeat true (List.length vol)) = vol.
Proof. induction vol as [|x vol IH]; simpl; [reflexivity|now rewrite IH]. Qed.

(** X9: A mask that is set on every voxel of the grid returns an image
    with at least one time point as it is. *)
Theorem mask_whole_grid_identity (n : nat) (epi : image) :
  (0 < n)%nat ->
  epi <> [] ->
  (forall vol, In vol epi -> List.length vol = n) ->
  fit_transform (repeat true n) epi = Some epi.
Proof.
  intros Hn Hne Hgrid.
  assert (Hvox : has_voxel (repeat true n) = true) by (destruct n; [lia|reflexivity]).
  assert (Hsame : same_grid epi (repeat true n) = true).
  { apply forallb_forall. intros vol Hvol. apply Nat.eqb_eq.
    now rewrite (Hgrid vol Hvol), repeat_length. }
  rewrite (fit_transform_masks _ epi Hsame Hvox Hne). f_equal.
  rewrite <- (List.map_id epi) at 2. apply map_ext_in. intros vol Hvol.
  rewrite <- (Hgrid vol Hvol). apply select_mask_all_true.
Qed.

(** [M[:, j]] *)
Fixpoint column (M : list (list A)) (j : nat) : option (list A) :=
  match M with
  | [] => Some []
  | r :: M' =>
      match nth_error r j, column M' j with
      | Some x, Some xs => Some (x :: xs)
      | _, _ => None
      end
  end.

(** [voxel_id = 100] *)
Definition voxel_id : nat := 100.

(** The data of the voxel plot: [maskedData[:, voxel_id]]. *)
Definition voxel_plot_cell (maskedData : list (list A)) : option (list A) :=
  column maskedData voxel_id.

Lemma has_voxel_roi (mask : list bool) :
  has_voxel mask = true -> (0 < List.length (roi mask))%nat.
Proof.
  unfold has_voxel. rewrite existsb_exists. intros (b & Hb & ->).
  apply In_nth_error in Hb as [v Hv].
  assert (Hin : In v (roi mask)).
  { unfold roi, Np.flatnonzero. apply flatnonzero_from_In. split; [lia|].
    now rewrite Nat.sub_0_r. }
  destruct (roi mask); [contradiction|simpl; lia].
Qed.

Lemma masked_column (mask : list bool) (epi : image) (j : nat) :
  same_grid epi mask = true ->
  epi <> [] ->
  (is_Some (column (List.map (fun vol => Np.select_mask vol mask) epi) j) <->
   (j < List.length (roi mask))%nat) /\
  (forall v, nth_error (roi mask) j = Some v ->
     exists ys, column (List.map (fun vol => Np.select_mask vol mask) epi) j = Some ys /\
                Forall2 (fun vol y => nth_error vol v = Some y) epi ys).
Proof.
  intros Hgrid Hne. unfold same_grid in Hgrid. rewrite forallb_forall in Hgrid.
  assert (Hlen : forall vol, In vol epi -> List.length vol = List.length mask).
  { intros vol Hvol. now apply Nat.eqb_eq, Hgrid. }
  clear Hgrid. split.
  - split.
    + destruct epi as [|vol epi]; [congruence|]. simpl. intros [ys Hys].
      destruct (nth_error (Np.select_mask vol mask) j) eqn:E; [|discriminate].
      assert (Hj : (j < List.length (Np.select_mask vol mask))%nat)
        by (apply nth_error_Some; congruence).
      unfold roi, Np.flatnonzero.
      rewrite <- (select_mask_length vol mask 0) by (apply Hlen; now left). exact Hj.
    + intros Hj. clear Hne. induction epi as [|vol epi IH]; simpl; [eauto|].
      destruct IH as [ys ->]; [intros v Hv; apply Hlen; now right|].
      destruct (nth_error (Np.select_mask vol mask) j) eqn:E; [eauto|].
      apply nth_error_None in E.
      rewrite (select_mask_length vol mask 0) in E by (apply Hlen; now left).
      unfold roi, Np.flatnonzero in Hj. lia.
  - intros v Hv. clear Hne. induction epi as [|vol epi IH]; simpl.
    + exists []. split; [reflexivity|constructor].
    + destruct IH as (ys & -> & Hys); [intros x Hx; apply Hlen; now right|].
      assert (Hvol : List.length vol = List.length mask) by (apply Hlen; now left).
      rewrite (select_mask_nth vol mask 0 j v Hvol Hv), Nat.sub_0_r.
      destruct (nth_error vol v) as [y|] eqn:E.
      * exists (y :: ys). split; [reflexivity|now constructor].
      * exfalso. apply nth_error_None in E.
        apply nth_error_In, flatnonzero_from_In in Hv as [_ Hv].
        rewrite Nat.sub_0_r in Hv.
        assert (v < List.length mask)%nat by (apply nth_error_Some; congruence). lia.
Qed.

(** X10: With at least one time point, the voxel plot finds its column exactly
    when the region has more than [voxel_id] voxels, and then it shows the
    time series of the region's voxel number [voxel_id]; a smaller region
    makes the cell raise IndexError. *)
Theorem voxel_plot_needs_voxels (mask : list bool) (epi : image) :
  same_grid epi mask = true ->
  has_voxel mask = true ->
  epi <> [] ->
  exists maskedData,
    fit_transform mask epi = Some maskedData /\
    (is_Some (voxel_plot_cell maskedData) <-> (voxel_id < List.length (roi mask))%nat) /\
    (forall v, nth_error (roi mask) voxel_id = Some v ->
       exists ys, voxel_plot_cell maskedData = Some ys /\
                  Forall2 (fun vol y => nth_error vol v = Some y) epi ys).
Proof.
  intros Hgrid Hvox Hne. rewrite (fit_transform_masks mask epi Hgrid Hvox Hne).
  eexists. split; [reflexivity|]. apply (masked_column mask epi voxel_id Hgrid Hne).
Qed.

End Masking.



Lemma mask_whole_grid_identity_witness :
  fit_transform (repeat true 3) [[10; 11; 12]; [20; 21; 22]] =
    Some [[10; 11; 12]; [20; 21; 22]].
Proof.
  apply (mask_whole_grid_identity 3 [[10; 11; 12]; [20; 21; 22]]); [lia|discriminate|].
  intros vol [<-|[<-|[]]]; reflexivity.
Defined.

(** X10 (witness): a region of two voxels is too
    small for the voxel plot. *)
Lemma voxel_plot_needs_voxels_witness :
  exists maskedData,
    fit_transform [false; true; false; true]
                  [[10; 11; 12; 13]; [20; 21; 22; 23]] = Some maskedData /\
    (is_Some (voxel_plot_cell maskedData) <->
     (voxel_id < List.length (roi [false; true; false; true]))%nat) /\
    voxel_plot_cell maskedData = None.
Proof.
  destruct (voxel_plot_needs_voxels [false; true; false; true]
              [[10; 11; 12; 13]; [20; 21; 22; 23]] eq_refl eq_refl)
    as (M & HM & Hiff & _); [discriminate|].
  exists M. split; [exact HM|]. split; [exact Hiff|].
  vm_compute in HM. injection HM as <-. reflexivity.
Defined.

End Masker.

(** ** Notebook 02: from the masked data to the check of the z-scores

    [maskedData = nifti_masker.fit_transform(epi_data)],
    [maskedData_zscore = StandardScaler().fit_transform(maskedData)],
    [voxel_mean = np.mean(maskedData_zscore, axis=0)] and
    [print('The number of voxels in the mask is %d' % len(voxel_mean))]. *)

Module Pipeline02.

(** X11: The masked data of an image with a time point and of a mask with a
    voxel always has the shape the scaler accepts: z-scoring it succeeds,
    the result has one row per time point and one column per voxel of the
    region, [len(voxel_mean)] is the number of voxels of the region, and
    every entry of [voxel_mean] is zero. *)
Theorem masked_data_zscores (mask : list bool) (epi : list (list R)) :
  Masker.same_grid epi mask = true ->
  Masker.has_voxel mask = true ->
  epi <> [] ->
  exists maskedData maskedData_zscore,
    Masker.fit_transform mask epi = Some maskedData /\
    ZScore.fit_transform maskedData = Some maskedData_zscore /\
    List.length maskedData_zscore = List.length epi /\
    (forall r, In r maskedData_zscore ->
               List.length r = List.length (Masker.roi mask)) /\
    List.length (ZScore.voxel_mean maskedData_zscore) = List.length (Masker.roi mask) /\
    (forall m, In m (ZScore.voxel_mean maskedData_zscore) -> m = 0%R).
Proof.
  intros Hgrid Hvox Hne.
  set (M := List.map (fun vol => Np.select_mask vol mask) epi).
  assert (HM : Masker.fit_transform mask epi = Some M).
  { now apply Masker.fit_transform_masks. }
  assert (Hrows : forall r, In r M -> List.length r = List.length (Masker.roi mask)).
  { intros r Hr. apply in_map_iff in Hr as (vol & <- & Hvol).
    apply Masker.select_mask_length. unfold Masker.same_grid in Hgrid.
    rewrite forallb_forall in Hgrid. now apply Nat.eqb_eq, Hgrid. }
  assert (HMne : M <> []) by (destruct epi; [congruence|discriminate]).
  destruct (ZScore.rows_rectangular M _ HMne Hrows) as [Hrect Hn].
  pose proof (Masker.has_voxel_roi mask Hvox) as Hpos.
  destruct (ZScore.fit_transform_cols M HMne Hrect) as (Z & HZ & Hcols); [lia|].
  destruct (ZScore.fit_transform_rows M Z HZ) as [Hlen HrowsZ].
  exists M, Z. split; [exact HM|]. split; [exact HZ|].
  split; [rewrite Hlen; apply length_map|].
  split; [intros r Hr; rewrite <- Hn; now apply HrowsZ|].
  unfold ZScore.voxel_mean.
  rewrite (ZScore.fit_transform_n_features M Z HZ), Hn.
  split; [now rewrite length_map, length_seq|].
  intros m Hm. apply in_map_iff in Hm as (j & <- & Hj). apply in_seq in Hj.
  rewrite (Hcols j) by lia. apply ZScore.zcol_mean. now apply ZScore.col_nonempty.
Qed.

Lemma masked_data_zscores_witness :
  exists maskedData maskedData_zscore,
    Masker.fit_transform [false; true; true] [[1; 2; 3]; [4; 5; 9]]%R = Some maskedData /\
    ZScore.fit_transform maskedData = Some maskedData_zscore /\
    List.length maskedData_zscore = 2%nat /\
    List.length (ZScore.voxel_mean maskedData_zscore) = 2%nat.
Proof.
  destruct (masked_data_zscores [false; true; true] [[1; 2; 3]; [4; 5; 9]]%R
              eq_refl eq_refl) as (M & Z & HM & HZ & Hlen & _ & Hvm & _);
    [discriminate|].
  exists M, Z. split; [exact HM|]. split; [exact HZ|]. split; [exact Hlen|exact Hvm].
Defined.

End Pipeline02.

(** ** Notebook 02, section 2.2: the stimulus labels of one run

    [stim_label_allruns] has one row per kind of information and one
    column per trial: row 0 holds the labels, row 2 the onset times in
    seconds, row 5 the run identifiers. *)

Module StimLabels.
Local Open Scope Q_scope.

Definition timing : Type := list (list Q).

(** Every row has the length of the first one. *)
Definition rectangular (stim : timing) : bool :=
  match stim with
  | [] => true
  | r :: _ => forallb (fun r' => Nat.eqb (List.length r') (List.length r)) stim
  end.

(** [stim[i, :]]: IndexError when there is no row [i]. *)
Definition row (stim : timing) (i : nat) : option (list Q) := nth_error stim i.

(** [stim_label_allruns[5,:] == run_id] *)
Definition time_points_mask (stim : timing) (run_id : Q) : option (list bool) :=
  match row stim 5 with
  | Some ids => Some (List.map (fun x => Qeq_bool x run_id) ids)
  | None => None
  end.

(** [stim[i, mask]]: numpy rejects a mask that is not as long as the row. *)
Definition row_masked (stim : timing) (i : nat) (mask : list bool) : option (list Q) :=
  match row stim i with
  | Some r =>
      if Nat.eqb (List.length mask) (List.length r)
      then Some (Np.select_mask r mask)
      else None
  | None => None
  end.

(** The cell that picks the labels and onset times of one run:
    [labels = stim_label_allruns[0, time_points_mask]] and
    [time_secs = stim_label_allruns[2, time_points_mask]]. *)
Definition run_cell (stim : timing) (run_id : Q) : option (list Q * list Q) :=
  match time_points_mask stim run_id with
  | None => None
  | Some mask =>
      match row_masked stim 0 mask with
      | None => None
      | Some labels =>
          match row_masked stim 2 mask with
          | None => None
          | Some time_secs => Some (labels, time_secs)
          end
      end
  end.

(** One pass of the plotting loop: [temp_mask = label == labels], then
    [ax.scatter(time_secs[temp_mask], labels[temp_mask], ...)]; the mask
    has the length of [labels], and [time_secs] must have it too. *)
Definition scatter_group (labels time_secs : list Q) (label : Q)
  : option (list Q * list Q) :=
  let temp_mask := List.map (fun x => Qeq_bool label x) labels in
  if Nat.eqb (List.length temp_mask) (List.length time_secs)
  then Some (Np.select_mask time_secs temp_mask, Np.select_mask labels temp_mask)
  else None.

(** [for i_cond in range(n_conditions)] over the keys of
    [vdc_label_dict]: the points drawn for each condition. *)
Fixpoint stimulus_scatter (keys labels time_secs : list Q)
  : option (list (list Q * list Q)) :=
  match keys with
  | [] => Some []
  | label :: keys' =>
      match scatter_group labels time_secs label with
      | None => None
      | Some g =>
          match stimulus_scatter keys' labels time_secs with
          | None => None
          | Some gs => Some (g :: gs)
          end
      end
  end.

(** The keys of a dictionary are pairwise different. *)
Fixpoint distinct_keys (keys : list Q) : bool :=
  match keys with
  | [] => true
  | k :: keys' => negb (existsb (fun k' => Qeq_bool k k') keys') && distinct_keys keys'
  end.

(** The label is one of the keys. *)
Definition known_label (keys : list Q) (l : Q) : bool :=
  existsb (fun k => Qeq_bool k l) keys.

Lemma rectangular_row_length (stim : timing) (i j : nat) (r r' : list Q) :
  rectangular stim = true -> row stim i = Some r -> row stim j = Some r' ->
  List.length r = List.length r'.
Proof.
  unfold rectangular, row. destruct stim as [|r0 stim']; [destruct i; discriminate|].
  rewrite forallb_forall. intros Hall Hi Hj.
  apply nth_error_In, Hall, Nat.eqb_eq in Hi.
  apply nth_error_In, Hall, Nat.eqb_eq in Hj. congruence.
Qed.

Lemma select_mask_map_length {A : Type} (a : list A) (mask : list bool) :
  List.length a = List.length mask ->
  List.length (Np.select_mask a mask) = List.length (Np.flatnonzero mask).
Proof. intros H. unfold Np.flatnonzero. now apply Masker.select_mask_length. Qed.

(** X12: On an array with rows of one length the cell completes exactly when
    there are at least six rows; then [labels] and [time_secs] have one
    entry per trial of the run, and their entries number [k] are the label
    and the onset time of the same trial, the [k]-th trial whose run
    identifier equals [run_id]. *)
Theorem run_cell_aligned (stim : timing) (run_id : Q) :
  rectangular stim = true ->
  (is_Some (run_cell stim run_id) <-> (6 <= List.length stim)%nat) /\
  (forall labels time_secs,
     run_cell stim run_id = Some (labels, time_secs) ->
     exists all_labels all_times run_ids mask,
       row stim 0 = Some all_labels /\ row stim 2 = Some all_times /\
       row stim 5 = Some run_ids /\
       mask = List.map (fun x => Qeq_bool x run_id) run_ids /\
       List.length labels = List.length (Np.flatnonzero mask) /\
       List.length time_secs = List.length (Np.flatnonzero mask) /\
       forall k trial, nth_error (Np.flatnonzero mask) k = Some trial ->
         nth_error labels k = nth_error all_labels trial /\
         nth_error time_secs k = nth_error all_times trial /\
         exists id, nth_error run_ids trial = Some id /\ id == run_id).
Proof.
  intros Hrect.
  assert (Hrow : forall i, (i < List.length stim)%nat -> exists r, row stim i = Some r).
  { intros i Hi. unfold row. destruct (nth_error stim i) eqn:E; [eauto|].
    apply nth_error_None in E. lia. }
  split.
  - split.
    + intros [res Hres]. unfold run_cell, time_points_mask in Hres.
      destruct (row stim 5) eqn:E; [|discriminate].
      unfold row in E. assert (5 < List.length stim)%nat by (apply nth_error_Some; congruence).
      lia.
    + intros Hlen.
      destruct (Hrow 0%nat) as [r0 H0]; [lia|]. destruct (Hrow 2%nat) as [r2 H2]; [lia|].
      destruct (Hrow 5%nat) as [r5 H5]; [lia|].
      unfold run_cell, time_points_mask, row_masked. rewrite H5, H0, H2, !length_map.
      rewrite (rectangular_row_length stim 5 0 r5 r0 Hrect H5 H0), Nat.eqb_refl.
      rewrite (rectangular_row_length stim 0 2 r0 r2 Hrect H0 H2), Nat.eqb_refl. eauto.
  - intros labels time_secs Hcell. unfold run_cell, time_points_mask, row_masked in Hcell.
    destruct (row stim 5) as [r5|] eqn:H5; [|discriminate].
    destruct (row stim 0) as [r0|] eqn:H0; [|discriminate].
    rewrite length_map in Hcell.
    destruct (Nat.eqb_spec (List.length r5) (List.length r0)) as [E0|]; [|discriminate].
    destruct (row stim 2) as [r2|] eqn:H2; [|discriminate].
    destruct (Nat.eqb_spec (List.length r5) (List.length r2)) as [E2|]; [|discriminate].
    injection Hcell as <- <-.
    set (mask := List.map (fun x => Qeq_bool x run_id) r5).
    assert (Hm : List.length mask = List.length r5) by apply length_map.
    exists r0, r2, r5, mask. repeat split; try reflexivity.
    + apply select_mask_map_length. lia.
    + apply select_mask_map_length. lia.
    + rewrite (Masker.select_mask_nth r0 mask 0 k trial) by (assumption || lia).
      now rewrite Nat.sub_0_r.
    + rewrite (Masker.select_mask_nth r2 mask 0 k trial) by (assumption || lia).
      now rewrite Nat.sub_0_r.
    + apply nth_error_In, Masker.flatnonzero_from_In in H as [_ Ht].
      rewrite Nat.sub_0_r in Ht. unfold mask in Ht. rewrite nth_error_map in Ht.
      destruct (nth_error r5 trial) as [id|]; [|discriminate].
      exists id. split; [reflexivity|]. apply Qeq_bool_iff. simpl in Ht. congruence.
Qed.

Lemma run_cell_aligned_witness :
  rectangular [[1; 2; 1]; [0; 0; 0]; [3 # 2; 3; 9 # 2]; [0; 0; 0]; [0; 0; 0]; [1; 2; 1]] = true /\
  run_cell [[1; 2; 1]; [0; 0; 0]; [3 # 2; 3; 9 # 2]; [0; 0; 0]; [0; 0; 0]; [1; 2; 1]] 1 =
    Some ([1; 1], [3 # 2; 9 # 2]) /\
  (is_Some (run_cell [[1; 2; 1]; [0; 0; 0]; [3 # 2; 3; 9 # 2];
                      [0; 0; 0]; [0; 0; 0]; [1; 2; 1]] 1) <->
   (6 <= 6)%nat).
Proof.
  split; [reflexivity|]. split; [reflexivity|].
  exact (proj1 (run_cell_aligned
                  [[1; 2; 1]; [0; 0; 0]; [3 # 2; 3; 9 # 2]; [0; 0; 0]; [0; 0; 0]; [1; 2; 1]]
                  1 eq_refl)).
Defined.

(** *** The scatter plot of the conditions *)

Lemma select_mask_filter_length (p : Q -> bool) (labels : list Q) :
  List.length (Np.select_mask labels (List.map p labels)) =
  List.length (List.filter p labels).
Proof.
  induction labels as [|l labels IH]; simpl; [reflexivity|].
  destruct (p l); simpl; now rewrite IH.
Qed.

Lemma select_mask_same_length {A B : Type} (a : list A) (b : list B) (mask : list bool) :
  List.length a = List.length b ->
  List.length (Np.select_mask a mask) = List.length (Np.select_mask b mask).
Proof.
  revert b mask. induction a as [|x a IH]; intros [|y b] [|m mask] H; simpl in *;
    try reflexivity; try discriminate.
  injection H as H. destruct m; simpl; now rewrite (IH b mask H).
Qed.

Lemma select_mask_map_In (p : Q -> bool) (labels : list Q) (y : Q) :
  In y (Np.select_mask labels (List.map p labels)) -> p y = true.
Proof.
  induction labels as [|l labels IH]; simpl; [tauto|].
  destruct (p l) eqn:E; simpl; [|exact IH]. intros [<-|H]; [exact E|now apply IH].
Qed.

Lemma filter_disjoint_length (p q : Q -> bool) (labels : list Q) :
  (forall l, p l = true -> q l = true -> False) ->
  List.length (List.filter (fun l => p l || q l) labels) =
  (List.length (List.filter p labels) + List.length (List.filter q labels))%nat.
Proof.
  intros Hpq. induction labels as [|l labels IH]; simpl; [reflexivity|].
  destruct (p l) eqn:Ep, (q l) eqn:Eq; simpl; rewrite IH; try lia.
  exfalso. now apply (Hpq l).
Qed.

(** X13: When [labels] and [time_secs] have one length and the keys are
    pairwise different, the loop completes with one group of points per
    key; in every group the two coordinate arrays have one length and
    every plotted label equals the group's key; and the groups hold as
    many points in total as there are trials whose label is a key, so no
    trial is drawn twice. *)
Theorem scatter_each_trial_once (keys labels time_secs : list Q) :
  List.length labels = List.length time_secs ->
  distinct_keys keys = true ->
  exists groups,
    stimulus_scatter keys labels time_secs = Some groups /\
    Forall2 (fun key (g : list Q * list Q) =>
               List.length (fst g) = List.length (snd g) /\
               forall y, In y (snd g) -> key == y)
            keys groups /\
    list_sum (List.map (fun g : list Q * list Q => List.length (snd g)) groups) =
      List.length (List.filter (known_label keys) labels).
Proof.
  intros Hlen. induction keys as [|k keys IH]; intros Hdist.
  - exists []. split; [reflexivity|]. split; [constructor|].
    assert (Hnil : forall ls, List.filter (known_label []) ls = [])
      by (induction ls; simpl; auto).
    now rewrite Hnil.
  - simpl in Hdist. apply andb_true_iff in Hdist as [Hk Hdist].
    destruct (IH Hdist) as (gs & Hgs & Hall & Hsum).
    simpl. unfold scatter_group. rewrite length_map, Hlen, Nat.eqb_refl, Hgs.
    eexists. split; [reflexivity|]. split.
    + constructor; [|exact Hall]. simpl. split.
      * apply select_mask_same_length. now symmetry.
      * intros y Hy. apply select_mask_map_In in Hy. now apply Qeq_bool_iff.
    + simpl. rewrite Hsum, select_mask_filter_length.
      symmetry. apply filter_disjoint_length.
      intros l Hkl Hrest. unfold known_label in Hrest.
      apply existsb_exists in Hrest as (k' & Hk' & Hk'l).
      apply negb_true_iff in Hk.
      assert (Hex : existsb (fun k'0 => Qeq_bool k k'0) keys = true).
      { apply existsb_exists. exists k'. split; [exact Hk'|].
        apply Qeq_bool_iff. apply Qeq_bool_iff in Hkl, Hk'l.
        now rewrite Hkl, Hk'l. }
      congruence.
Qed.

Lemma scatter_each_trial_once_witness :
  exists groups,
    stimulus_scatter [1; 2; 3] [1; 2; 1] [3 # 2; 3; 9 # 2] = Some groups /\
    groups = [([3 # 2; 9 # 2], [1; 1]); ([3], [2]); ([], [])] /\
    list_sum (List.map (fun g : list Q * list Q => List.length (snd g)) groups) =
      List.length (List.filter (known_label [1; 2; 3]) [1; 2; 1]).
Proof.
  destruct (scatter_each_trial_once [1; 2; 3] [1; 2; 1] [3 # 2; 3; 9 # 2] eq_refl eq_refl)
    as (groups & Hg & _ & Hsum).
  exists groups. split; [exact Hg|]. split; [|exact Hsum].
  vm_compute in Hg. congruence.
Defined.

End StimLabels.

(** ** Notebook 04, section 3.1: the histograms of the PCA dimensions

    [n_plots = 4], [components_to_plot = [0,1,2,19]] and, for [i] in
    [range(n_plots)], [axes[i].hist(bold_pca[:, components_to_plot[i]],
    bins=n_bins)] with the title
    ['PC Dimension %d' % (components_to_plot[i]+1)]. *)

Module PcaPlots.
Import Nb.

Inductive event : Type :=
  | Subplots (rows cols : nat)
  | Suptitle (title : string)
  | Hist (axis : nat) (data : list Q) (bins : Z)
  | SetTitle (axis : nat) (title : string)
  | SetYLabel (axis : nat) (label : string)
  | SetXLabel (axis : nat) (label : string)
  | SetXTicks (axis : nat)
  | SetYTicks (axis : nat)
  | Layout.

Definition n_bins : Z := 75.
Definition n_plots : nat := 4.
Definition components_to_plot : list nat := [0; 1; 2; 19]%nat.

(** One pass of the loop body for [i]; the histogram comes first, so an
    IndexError leaves nothing drawn for this axis. *)
Definition hist_pass (bold_pca : list (list Q)) (i : nat) : (unit + string) * list event :=
  match nth_error components_to_plot i with
  | None => (inr "IndexError"%string, [])
  | Some c =>
      match column bold_pca c with
      | None => (inr "IndexError"%string, [])
      | Some data =>
          (inl tt,
           [Hist i data n_bins;
            SetTitle i ("PC Dimension " +:+ pretty (Z.of_nat c + 1));
            SetYLabel i "Frequency";
            SetXLabel i "Value";
            SetXTicks i;
            SetYTicks i])
      end
  end.

Fixpoint hist_loop (bold_pca : list (list Q)) (items : list nat)
  : (unit + string) * list event :=
  match items with
  | [] => (inl tt, [])
  | i :: items' =>
      match hist_pass bold_pca i with
      | (inl _, drawn) =>
          let (r, later) := hist_loop bold_pca items' in (r, drawn ++ later)
      | (inr exc, drawn) => (inr exc, drawn)
      end
  end.

Definition histogram_cell (bold_pca : list (list Q)) : (unit + string) * list event :=
  let opening :=
    [Subplots 1 n_plots; Suptitle "Figure 3.1. Histogram of values for each PC dimension "] in
  match hist_loop bold_pca (seq 0 n_plots) with
  | (inl _, drawn) => (inl tt, opening ++ drawn ++ [Layout])
  | (inr exc, drawn) => (inr exc, opening ++ drawn)
  end.

(** The histograms among the events: axis and data. *)
Fixpoint histograms (evs : list event) : list (nat * list Q) :=
  match evs with
  | [] => []
  | Hist axis data _ :: evs' => (axis, data) :: histograms evs'
  | _ :: evs' => histograms evs'
  end.

(** The titles among the events. *)
Fixpoint titles (evs : list event) : list string :=
  match evs with
  | [] => []
  | SetTitle _ t :: evs' => t :: titles evs'
  | _ :: evs' => titles evs'
  end.

Lemma column_is_Some (a : list (list Q)) (n j : nat) :
  a <> [] -> (forall r, In r a -> List.length r = n) ->
  (is_Some (column a j) <-> (j < n)%nat).
Proof.
  intros Hne Hrows. split.
  - destruct a as [|r a]; [congruence|]. simpl. intros [xs Hxs].
    destruct (nth_error r j) eqn:E; [|discriminate].
    rewrite <- (Hrows r) by now left. apply nth_error_Some. congruence.
  - intros Hj. clear Hne. induction a as [|r a IH]; simpl; [eauto|].
    destruct IH as [xs ->]; [intros x Hx; apply Hrows; now right|].
    destruct (nth_error r j) eqn:E; [eauto|].
    apply nth_error_None in E. rewrite (Hrows r) in E by now left. lia.
Qed.

(** X18: On a non-empty array with [n] columns the cell completes exactly when
    there are at least 20 columns, as the last histogram reads column 19;
    it then draws the columns 0, 1, 2 and 19 on the axes 0 to 3 under the
    titles of the dimensions 1, 2, 3 and 20. *)
Theorem histogram_cell_needs_20_columns (bold_pca : list (list Q)) (n : nat) :
  bold_pca <> [] ->
  (forall r, In r bold_pca -> List.length r = n) ->
  (fst (histogram_cell bold_pca) = inl tt <-> (20 <= n)%nat) /\
  ((20 <= n)%nat ->
   exists c0 c1 c2 c19,
     column bold_pca 0 = Some c0 /\ column bold_pca 1 = Some c1 /\
     column bold_pca 2 = Some c2 /\ column bold_pca 19 = Some c19 /\
     histograms (snd (histogram_cell bold_pca)) =
       [(0, c0); (1, c1); (2, c2); (3, c19)]%nat /\
     titles (snd (histogram_cell bold_pca)) =
       ["PC Dimension 1"; "PC Dimension 2"; "PC Dimension 3"; "PC Dimension 20"]%string).
Proof.
  intros Hne Hrows.
  pose proof (column_is_Some bold_pca n 0 Hne Hrows) as H0.
  pose proof (column_is_Some bold_pca n 1 Hne Hrows) as H1.
  pose proof (column_is_Some bold_pca n 2 Hne Hrows) as H2.
  pose proof (column_is_Some bold_pca n 19 Hne Hrows) as H19.
  unfold histogram_cell, n_plots. cbn [seq hist_loop]. unfold hist_pass.
  cbn [components_to_plot nth_error].
  destruct (le_lt_dec 20 n) as [Hn|Hn].
  - destruct (proj2 H0) as [c0 ->]; [lia|]. destruct (proj2 H1) as [c1 ->]; [lia|].
    destruct (proj2 H2) as [c2 ->]; [lia|]. destruct (proj2 H19) as [c19 ->]; [lia|].
    cbn [fst snd app]. split; [split; [intros _; exact Hn|reflexivity]|].
    intros _. exists c0, c1, c2, c19. repeat split; reflexivity.
  - assert (E19 : column bold_pca 19 = None).
    { destruct (column bold_pca 19) eqn:E; [|reflexivity].
      assert (19 < n)%nat by (apply H19; eauto). lia. }
    rewrite E19.
    destruct (column bold_pca 0); destruct (column bold_pca 1);
      destruct (column bold_pca 2); cbn [fst snd app];
      (split; [split; [discriminate|lia]|lia]).
Qed.

(** X18 (witness): one sample with twenty components. *)
Lemma histogram_cell_needs_20_columns_witness :
  fst (histogram_cell [repeat 1%Q 20]) = inl tt /\
  titles (snd (histogram_cell [repeat 1%Q 20])) =
    ["PC Dimension 1"; "PC Dimension 2"; "PC Dimension 3"; "PC Dimension 20"]%string.
Proof.
  assert (Hne : [repeat 1%Q 20] <> []) by discriminate.
  assert (Hrows : forall r, In r [repeat 1%Q 20] -> List.length r = 20%nat)
    by (intros r [<-|[]]; reflexivity).
  destruct (histogram_cell_needs_20_columns [repeat 1%Q 20] 20 Hne Hrows) as [Hiff Hdraw].
  split; [apply Hiff; lia|].
  destruct Hdraw as (c0 & c1 & c2 & c19 & _ & _ & _ & _ & _ & Ht); [lia|exact Ht].
Defined.

End PcaPlots.

(** ** Notebook 04, section 1: block averaging

    The cell calls
    [bold_data, labels, run_ids =
       blockwise_sampling(bold_data_raw, labels_raw, run_ids_raw)]. *)

Module BlockAvg.
Local Open Scope Q_scope.

(** One trial: its label, its run id and its row of voxel values. *)
Definition trial : Type := (Z * Z * list Q)%type.

(** One block: the label and run id its trials share, and their rows. *)
Definition block : Type := (Z * Z * list (list Q))%type.




















(** *** The mean of a block, column by column *)















End BlockAvg.

(** ** The z-scoring step as an operation on the object heap

    Python passes arrays by reference, and [scaler.fit] changes the scaler
    object it is called on.  Objects live in a heap indexed by location; a
    call receives locations and a heap and returns locations and a
    heap. *)

Module Stateless.

Section Heap.

(** The contents of a numpy array. *)
Variable array : Type.

(** The state a fitted [StandardScaler] keeps: [mean_] and [scale_]. *)
Variable fitted : Type.

Inductive obj : Type :=
  | OArray (a : array)
  | OScaler (state : option fitted).

(** The heap: the object at location [l] is the [l]-th entry; allocation
    appends. *)
Abbreviation heap := (list obj).

(** A call: argument locations and heap in, result locations and heap
    out, or an exception. *)
Definition transform_call : Type := list nat -> heap -> option (list nat * heap).

Definition read_array (h : heap) (l : nat) : option array :=
  match h !! l with
  | Some (OArray a) => Some a
  | _ => None
  end.

Fixpoint read_arrays (h : heap) (ls : list nat) : option (list array) :=
  match ls with
  | [] => Some []
  | l :: ls' =>
      match read_array h l, read_arrays h ls' with
      | Some a, Some vs => Some (a :: vs)
      | _, _ => None
      end
  end.

(** The numeric bodies of [fit] and [transform]. *)
Variable fit_body : array -> option fitted.
Variable transform_body : fitted -> array -> option array.

Definition unary (g : array -> option array) (vs : list array) : option (list array) :=
  match vs with
  | [a] => match g a with Some r => Some [r] | None => None end
  | _ => None
  end.

(** [preprocessing.StandardScaler()]: a new, unfitted scaler object. *)
Definition new_scaler (h : heap) : nat * heap :=
  (List.length h, h ++ [OScaler None]).

(** [scaler.fit(X)] stores the fitted state in the scaler object and
    returns the scaler. *)
Definition fit (sc X : nat) (h : heap) : option (nat * heap) :=
  match h !! sc, read_array h X with
  | Some (OScaler _), Some a =>
      match fit_body a with
      | Some p => Some (sc, <[sc := OScaler (Some p)]> h)
      | None => None
      end
  | _, _ => None
  end.

(** [scaler.transform(X)] reads the fitted state (NotFittedError without
    it) and returns a new array. *)
Definition transform (sc X : nat) (h : heap) : option (nat * heap) :=
  match h !! sc, read_array h X with
  | Some (OScaler (Some p)), Some a =>
      match transform_body p a with
      | Some r => Some (List.length h, h ++ [OArray r])
      | None => None
      end
  | _, _ => None
  end.

(** [scaler.fit_transform(X)] *)
Definition fit_transform (sc X : nat) (h : heap) : option (nat * heap) :=
  match fit sc X h with
  | Some (sc', h1) => transform sc' X h1
  | None => None
  end.

(** The z-scoring step: [StandardScaler().fit_transform(X)]. *)
Definition zscore : transform_call :=
  fun args h =>
    match args with
    | [X] =>
        let (sc, h1) := new_scaler h in
        match fit_transform sc X h1 with
        | Some (r, h2) => Some ([r], h2)
        | None => None
        end
    | _ => None
    end.

(** The numeric function that [zscore] computes. *)
Definition zscore_body (a : array) : option array :=
  match fit_body a with
  | Some p => transform_body p a
  | None => None
  end.

(** The three spellings of the z-scoring cell of notebook 02, each
    rebinding [scaler] and [maskedData_zscore]; the result is the location
    bound to [maskedData_zscore] at the end. *)
Definition zscore_cell (maskedData : nat) (h : heap) : option (nat * heap) :=
  let (scaler1, h1) := new_scaler h in
  match fit scaler1 maskedData h1 with
  | None => None
  | Some (scaler1', h2) =>
      match transform scaler1' maskedData h2 with
      | None => None
      | Some (_, h3) =>
          let (scaler2, h4) := new_scaler h3 in
          match fit scaler2 maskedData h4 with
          | None => None
          | Some (_, h5) =>
              match transform scaler2 maskedData h5 with
              | None => None
              | Some (_, h6) =>
                  let (scaler3, h7) := new_scaler h6 in
                  fit_transform scaler3 maskedData h7
              end
          end
      end
  end.

(** A call is stateless when it changes no object that existed before it
    (so its input arrays are unchanged), and when two calls whose argument
    arrays have equal contents both raise or return arrays with equal
    contents, whatever else the two heaps hold. *)
Definition leaves_heap_unchanged (T : transform_call) : Prop :=
  forall args h rs h',
    T args h = Some (rs, h') ->
    forall l, (l < List.length h)%nat -> h' !! l = h !! l.

Definition depends_only_on_arguments (T : transform_call) : Prop :=
  forall args1 h1 args2 h2,
    read_arrays h1 args1 = read_arrays h2 args2 ->
    match T args1 h1, T args2 h2 with
    | Some (rs1, h1'), Some (rs2, h2') =>
        is_Some (read_arrays h1' rs1) /\ read_arrays h1' rs1 = read_arrays h2' rs2
    | None, None => True
    | _, _ => False
    end.

Definition stateless (T : transform_call) : Prop :=
  leaves_heap_unchanged T /\ depends_only_on_arguments T.

(** [T] computes the numeric function [f] of its argument arrays into
    newly allocated objects. *)
Definition computes (f : list array -> option (list array)) (T : transform_call) : Prop :=
  forall args h,
    match read_arrays h args with
    | None => T args h = None
    | Some vs =>
        match f vs with
        | None => T args h = None
        | Some rs =>
            exists locs ext,
              T args h = Some (locs, h ++ ext) /\
              read_arrays (h ++ ext) locs = Some rs
        end
    end.

(** *** Reading through allocations *)

Lemma read_array_app (h ext : heap) (l : nat) (a : array) :
  read_array h l = Some a -> read_array (h ++ ext) l = Some a.
Proof.
  unfold read_array. destruct (h !! l) as [o|] eqn:E; [|discriminate].
  intros H. now rewrite (lookup_app_l_Some _ _ _ _ E).
Qed.

Lemma read_array_app_scaler (h : heap) (st : option fitted) (l : nat) :
  read_array (h ++ [OScaler st]) l = read_array h l.
Proof.
  unfold read_array. destruct (Nat.lt_ge_cases l (List.length h)) as [Hlt|Hge].
  - now rewrite lookup_app_l.
  - rewrite lookup_app_r by exact Hge. rewrite (lookup_ge_None_2 h l Hge).
    now destruct (l - List.length h)%nat as [|[|k]].
Qed.

Lemma read_arrays_app (h ext : heap) (ls : list nat) (vs : list array) :
  read_arrays h ls = Some vs -> read_arrays (h ++ ext) ls = Some vs.
Proof.
  revert vs. induction ls as [|l ls IH]; intros vs; simpl; [trivial|].
  destruct (read_array h l) as [a|] eqn:Ea; [|discriminate].
  destruct (read_arrays h ls) as [ws|] eqn:Ews; [|discriminate].
  intros H. now rewrite (read_array_app _ _ _ _ Ea), (IH ws eq_refl).
Qed.

(** *** From computing a numeric function to statelessness *)

Lemma computes_stateless (f : list array -> option (list array)) (T : transform_call) :
  computes f T -> stateless T.
Proof.
  intros HT. split.
  - intros args h rs h' Hcall l Hl. specialize (HT args h).
    destruct (read_arrays h args) as [vs|]; [|congruence].
    destruct (f vs) as [rs0|]; [|congruence].
    destruct HT as (locs & ext & Heq & _). rewrite Heq in Hcall.
    injection Hcall as _ <-. now apply lookup_app_l.
  - intros args1 h1 args2 h2 Hargs.
    pose proof (HT args1 h1) as H1. pose proof (HT args2 h2) as H2.
    rewrite <- Hargs in H2.
    destruct (read_arrays h1 args1) as [vs|].
    + destruct (f vs) as [rs|].
      * destruct H1 as (l1 & e1 & -> & Hr1). destruct H2 as (l2 & e2 & -> & Hr2).
        rewrite Hr1, Hr2. eauto.
      * now rewrite H1, H2.
    + now rewrite H1, H2.
Qed.

(** *** The scaler object *)

Lemma fit_fresh (h : heap) (X : nat) (a : array) (p : fitted) :
  read_array h X = Some a -> fit_body a = Some p ->
  fit (List.length h) X (h ++ [OScaler None]) =
    Some (List.length h, h ++ [OScaler (Some p)]).
Proof.
  intros Ha Hp. unfold fit.
  rewrite list_lookup_middle by reflexivity.
  rewrite read_array_app_scaler, Ha, Hp.
  now rewrite insert_app_r_alt, Nat.sub_diag by reflexivity.
Qed.

Lemma transform_fitted (h : heap) (X : nat) (a : array) (p : fitted) (r : array) :
  read_array h X = Some a -> transform_body p a = Some r ->
  transform (List.length h) X (h ++ [OScaler (Some p)]) =
    Some (S (List.length h), h ++ [OScaler (Some p); OArray r]).
Proof.
  intros Ha Hr. unfold transform.
  rewrite list_lookup_middle by reflexivity.
  rewrite read_array_app_scaler, Ha, Hr.
  rewrite length_app, <- app_assoc. simpl. repeat f_equal. lia.
Qed.

(** What [StandardScaler().fit_transform(X)] does to any heap. *)
Lemma new_fit_transform (h : heap) (X : nat) :
  fit_transform (List.length h) X (h ++ [OScaler None]) =
  match read_array h X with
  | None => None
  | Some a =>
      match fit_body a with
      | None => None
      | Some p =>
          match transform_body p a with
          | None => None
          | Some r => Some (S (List.length h), h ++ [OScaler (Some p); OArray r])
          end
      end
  end.
Proof.
  unfold fit_transform.
  destruct (read_array h X) as [a|] eqn:Ea.
  - destruct (fit_body a) as [p|] eqn:Ep.
    + rewrite (fit_fresh h X a p Ea Ep).
      destruct (transform_body p a) as [r|] eqn:Er.
      * apply (transform_fitted h X a p r Ea Er).
      * unfold transform. rewrite list_lookup_middle by reflexivity.
        now rewrite read_array_app_scaler, Ea, Er.
    + unfold fit. rewrite list_lookup_middle by reflexivity.
      now rewrite read_array_app_scaler, Ea, Ep.
  - unfold fit. rewrite list_lookup_middle by reflexivity.
    now rewrite read_array_app_scaler, Ea.
Qed.

Lemma zscore_computes : computes (unary zscore_body) zscore.
Proof.
  intros args h. unfold zscore.
  destruct args as [|X [|Y args]].
  - reflexivity.
  - unfold new_scaler. rewrite new_fit_transform. simpl. unfold zscore_body.
    destruct (read_array h X) as [a|] eqn:Ea; [|reflexivity]. simpl.
    destruct (fit_body a) as [p|]; [|reflexivity].
    destruct (transform_body p a) as [r|]; [|reflexivity].
    eexists _, _. split; [reflexivity|]. simpl. unfold read_array.
    replace (h ++ [OScaler (Some p); OArray r])
      with ((h ++ [OScaler (Some p)]) ++ [OArray r]) by now rewrite <- app_assoc.
    replace (S (List.length h)) with (List.length (h ++ [OScaler (Some p)]))
      by (rewrite length_app; simpl; lia).
    now rewrite list_lookup_middle by reflexivity.
  - simpl. destruct (read_array h X); [|reflexivity].
    destruct (read_array h Y); [|reflexivity].
    destruct (read_arrays h args); reflexivity.
Qed.

(** X8: The three spellings of the z-scoring cell bind [maskedData_zscore] to
    arrays with the contents [zscore] computes, and change no object that
    existed before the cell. *)
Lemma zscore_cell_spec (h : heap) (maskedData : nat) (a r : array) :
  read_array h maskedData = Some a ->
  zscore_body a = Some r ->
  exists l h', zscore_cell maskedData h = Some (l, h') /\
               read_array h' l = Some r /\
               forall k, (k < List.length h)%nat -> h' !! k = h !! k.
Proof.
  intros Ha Hz. unfold zscore_body in Hz.
  destruct (fit_body a) as [p|] eqn:Ep; [|discriminate].
  unfold zscore_cell, new_scaler.
  rewrite (fit_fresh h _ a p Ha Ep), (transform_fitted h _ a p r Ha Hz).
  set (h3 := h ++ [OScaler (Some p); OArray r]).
  assert (Ha3 : read_array h3 maskedData = Some a) by now apply read_array_app.
  rewrite (fit_fresh h3 _ a p Ha3 Ep), (transform_fitted h3 _ a p r Ha3 Hz).
  set (h6 := h3 ++ [OScaler (Some p); OArray r]).
  assert (Ha6 : read_array h6 maskedData = Some a) by now apply read_array_app.
  rewrite (new_fit_transform h6 maskedData), Ha6, Ep, Hz.
  eexists _, _. split; [reflexivity|]. split.
  - unfold read_array.
    replace (h6 ++ [OScaler (Some p); OArray r])
      with ((h6 ++ [OScaler (Some p)]) ++ [OArray r]) by now rewrite <- app_assoc.
    replace (S (List.length h6)) with (List.length (h6 ++ [OScaler (Some p)]))
      by (rewrite length_app; simpl; lia).
    now rewrite list_lookup_middle by reflexivity.
  - intros k Hk. unfold h6, h3. rewrite <- !app_assoc. now apply lookup_app_l.
Qed.

(** A call that overwrote its argument in place would not be stateless:
    the heap model tells the two apart. *)
Definition overwrite (g : array -> array) : transform_call :=
  fun args h =>
    match args with
    | [l] =>
        match read_array h l with
        | Some a => Some ([l], <[l := OArray (g a)]> h)
        | None => None
        end
    | _ => None
    end.

Lemma overwrite_not_stateless (g : array -> array) (a : array) :
  g a <> a -> ~ stateless (overwrite g).
Proof.
  intros Hg [Hframe _].
  specialize (Hframe [O] [OArray a] [O] [OArray (g a)] eq_refl O).
  simpl in Hframe. specialize (Hframe (Nat.lt_0_succ 0)). congruence.
Qed.

(** X19: The z-scoring call [StandardScaler().fit_transform(X)] changes
    no object that existed before it, so [X] is unchanged although [fit]
    writes the fitted state into the scaler it has just created; and two
    calls on arrays with equal contents both raise or both return arrays
    with equal contents, whatever else the two heaps hold. *)
Theorem zscore_stateless : stateless zscore.
Proof. exact (computes_stateless _ _ zscore_computes). Qed.

End Heap.

End Stateless.

(** X8 (witness): arrays and fitted states are numbers,
    fitting keeps the number and transforming adds the two. *)
Lemma zscore_cell_spec_witness :
  exists l h',
    Stateless.zscore_cell nat nat (fun a => Some a) (fun p a => Some (p + a)%nat)
      0 [Stateless.OArray nat nat 3%nat] = Some (l, h') /\
    Stateless.read_array nat nat h' l = Some 6%nat /\
    forall k, (k < 1)%nat -> h' !! k = [Stateless.OArray nat nat 3%nat] !! k.
Proof.
  exact (Stateless.zscore_cell_spec nat nat (fun a => Some a) (fun p a => Some (p + a)%nat)
           [Stateless.OArray nat nat 3%nat] 0 3%nat 6%nat eq_refl eq_refl).
Defined.

(** ** Control flow of the notebook cells

    The cells are straight-line statements, two kinds of conditional and
    four [for] loops.  Commands are given a big-step semantics in which a
    command may run forever ([While]); the notebooks are then shown to
    lie in the fragment whose loops range over a collection computed
    before the loop starts. *)

Module Control.
Import Nb.

Inductive cmd : Type :=
  | Skip
  | Do (f : stmt unit)
  | Seq (c1 c2 : cmd)
  | If (test : nbstate -> bool + string) (c1 c2 : cmd)
  | For (iterable : nbstate -> list value + string) (body : value -> cmd)
  | While (test : nbstate -> bool + string) (body : cmd).

(** How a command ends: normally or with an exception, in some state. *)
Definition outcome : Type := ((unit + string) * nbstate)%type.

(** The items that remain after the first iteration of a [for] loop do
    not depend on the state any more: the iterable is evaluated once. *)
Definition remaining (xs : list value) : nbstate -> list value + string :=
  fun _ => inl xs.

Inductive exec : cmd -> nbstate -> outcome -> Prop :=
  | E_Skip s :
      exec Skip s (inl tt, s)
  | E_Do f s :
      exec (Do f) s (f s)
  | E_Seq c1 c2 s s1 r :
      exec c1 s (inl tt, s1) -> exec c2 s1 r -> exec (Seq c1 c2) s r
  | E_SeqRaise c1 c2 s s1 e :
      exec c1 s (inr e, s1) -> exec (Seq c1 c2) s (inr e, s1)
  | E_IfTrue test c1 c2 s r :
      test s = inl true -> exec c1 s r -> exec (If test c1 c2) s r
  | E_IfFalse test c1 c2 s r :
      test s = inl false -> exec c2 s r -> exec (If test c1 c2) s r
  | E_IfRaise test c1 c2 s e :
      test s = inr e -> exec (If test c1 c2) s (inr e, s)
  | E_ForRaise iterable body s e :
      iterable s = inr e -> exec (For iterable body) s (inr e, s)
  | E_ForDone iterable body s :
      iterable s = inl [] -> exec (For iterable body) s (inl tt, s)
  | E_ForStep iterable body s x xs s1 r :
      iterable s = inl (x :: xs) ->
      exec (body x) s (inl tt, s1) ->
      exec (For (remaining xs) body) s1 r ->
      exec (For iterable body) s r
  | E_ForBodyRaise iterable body s x xs s1 e :
      iterable s = inl (x :: xs) ->
      exec (body x) s (inr e, s1) ->
      exec (For iterable body) s (inr e, s1)
  | E_WhileRaise test body s e :
      test s = inr e -> exec (While test body) s (inr e, s)
  | E_WhileDone test body s :
      test s = inl false -> exec (While test body) s (inl tt, s)
  | E_WhileStep test body s s1 r :
      test s = inl true ->
      exec body s (inl tt, s1) ->
      exec (While test body) s1 r ->
      exec (While test body) s r
  | E_WhileBodyRaise test body s s1 e :
      test s = inl true ->
      exec body s (inr e, s1) ->
      exec (While test body) s (inr e, s1).

(** Commands whose only loops are [for] loops. *)
Inductive bounded : cmd -> Prop :=
  | B_Skip : bounded Skip
  | B_Do f : bounded (Do f)
  | B_Seq c1 c2 : bounded c1 -> bounded c2 -> bounded (Seq c1 c2)
  | B_If test c1 c2 : bounded c1 -> bounded c2 -> bounded (If test c1 c2)
  | B_For iterable body : (forall x, bounded (body x)) -> bounded (For iterable body).

Definition terminates (c : cmd) : Prop := forall s, exists r, exec c s r.

(** [range(n)] for the integer bound to [name]. *)
Definition range_items (n : Z) : list value :=
  List.map (fun i => VInt (Z.of_nat i)) (seq 0 (Z.to_nat n)).

Definition range_of (name : string) : nbstate -> list value + string :=
  fun s =>
    match vars s !! name with
    | Some (VInt n) => inl (range_items n)
    | Some _ => inr "TypeError"%string
    | None => inr "NameError"%string
    end.

(** [if x is not None] *)
Definition is_not_None (name : string) : nbstate -> bool + string :=
  fun s =>
    match vars s !! name with
    | Some VNone => inl false
    | Some _ => inl true
    | None => inr "NameError"%string
    end.

Fixpoint block (cs : list cmd) : cmd :=
  match cs with
  | [] => Skip
  | c :: cs' => Seq c (block cs')
  end.

Section Notebooks.

(** The effect of a library call or of a straight-line group of
    statements, named by its source text; every such call returns or
    raises. *)
Variable lib : string -> stmt unit.

(** [not sys.warnoptions] *)
Variable no_warnoptions : nbstate -> bool + string.

(** The folds [enumerate(ps.split(bold_normalized, labels))] yields: one
    per entry of the [unique_folds] that [PredefinedSplit] stored when
    [ps] was built. *)
Variable enumerate_split : nbstate -> list value + string.

(** [for cv_idx, (train_index, test_index) in ...]: binding the names. *)
Variable bind_fold : value -> stmt unit.

Definition import_cell : cmd :=
  block [ If no_warnoptions (Do (lib "warnings.simplefilter('ignore')")) Skip;
          Do (lib "import ...; %matplotlib inline; %autosave 5; sns.set(...)") ].

(** Notebook 02, the stimulus plot: [for i_cond in range(n_conditions)]. *)
Definition stimulus_plot_cell : cmd :=
  block [ Do (lib "n_conditions = len(vdc_label_dict); cur_pals = ...; f, ax = plt.subplots(...)");
          For (range_of "n_conditions") (fun i_cond =>
            block [ Do (assign "i_cond" i_cond);
                    Do (lib "label = list(vdc_label_dict.keys())[i_cond]");
                    Do (lib "temp_mask = label == labels");
                    Do (lib "ax.scatter(time_secs[temp_mask], labels[temp_mask], ...)") ]);
          Do (lib "ax.legend(...); ax.plot(...); ax.set_title(...); ...") ].

(** Notebook 02, the cell after Exercise 7. *)
Definition exercise7_plot_cell : cmd :=
  If (is_not_None "maskedData_normalized")
     (Do (data <- get_var "maskedData_normalized" ;; Ex7.plot_branch data))
     (Do (print Ex7.reminder)).

Definition notebook02 : cmd :=
  block [ import_cell;
          Do (lib "from utils import ...; print(...)");
          Do (lib "sub = 'sub-01'; stim_label_allruns = load_vdc_stim_labels(sub); print(...)");
          Do (lib "run_id = 1; time_points_mask = ...; labels = ...; time_secs = ...; print(...)");
          Do (lib "plt.figure(); plt.plot(time_secs, labels); plt.title(...); plt.xlabel(...)");
          stimulus_plot_cell;
          Do (lib "print('Here\'re the available ROIs: ', vdc_all_ROIs)");
          Do (lib "ROI_name = 'FFA'; epi_data = ...; mask = ...; maskedData = nifti_masker.fit_transform(epi_data); print(...)");
          Do (lib "voxel_id = 100; f, ax = plt.subplots(...); ax.plot(maskedData[:, voxel_id]); ...");
          Do (lib "maskedData_zscore = preprocessing.StandardScaler().fit_transform(maskedData)");
          Do (lib "voxel_mean = ...; voxel_std = ...; print(...)");
          Do Ex7.exercise_cell;
          exercise7_plot_cell;
          Do (lib "activity = np.load(...); ...; face_activity = activity[face_labels]; ...; plt.errorbar(...)") ].

(** Notebook 04, Figure 3.1: [n_plots = 4; for i in range(n_plots)]. *)
Definition histogram_cell : cmd :=
  block [ Do (lib "n_bins = 75");
          Do (assign "n_plots" (VInt 4));
          Do (lib "components_to_plot = [0,1,2,19]; f, axes = plt.subplots(...); st = f.suptitle(...)");
          For (range_of "n_plots") (fun i =>
            block [ Do (assign "i" i);
                    Do (lib "axes[i].hist(bold_pca[:, components_to_plot[i]], bins=n_bins)");
                    Do (lib "axes[i].set_title(...); axes[i].set_ylabel(...); axes[i].set_xlabel(...)");
                    Do (lib "axes[i].set_xticks([]); axes[i].set_yticks([])") ]);
          Do (lib "f.tight_layout(); st.set_y(0.95); f.subplots_adjust(top=0.75)") ].

(** Notebook 04, Figure 3.2: [n_plots = 3; for i in range(n_plots)]. *)
Definition scatter_cell : cmd :=
  block [ Do (lib "alpha_val = .8; cur_pals = sns.color_palette(...)");
          Do (assign "n_plots" (VInt 3));
          Do (lib "f, axes = plt.subplots(...); st = f.suptitle(...); axes[0].scatter(...); ...");
          For (range_of "n_plots") (fun i =>
            block [ Do (assign "i" i);
                    Do (lib "axes[i].axis('equal'); axes[i].set_xticks([]); axes[i].set_yticks([])") ]);
          Do (lib "f.tight_layout(); st.set_y(0.95); f.subplots_adjust(top=0.75)") ].

(** Notebook 04, the train/test printout:
    [for cv_idx, (train_index, test_index) in enumerate(ps.split(...))]. *)
Definition split_printout_cell : cmd :=
  block [ For enumerate_split (fun fold =>
            block [ Do (bind_fold fold);
                    Do (lib "print('CV iteration: %s' % cv_idx)");
                    Do (lib "print('Train_index: '); print(train_index)");
                    Do (lib "print('Test_index: '); print(test_index)") ]);
          Do (lib "print(clf_pipe); print('Average Testing Accuracy: ...')") ].

Definition notebook04 : cmd :=
  block [ import_cell;
          Do (lib "from utils import ...; print(...)");
          Do (lib "sub_id = 1; mask_name = 'FFA'");
          Do (lib "sub = ...; shift_size = ...; ...; bold_normalized = normalize(bold_data, run_ids)");
          Do (lib "pca = PCA(n_components=20); bold_pca = pca.fit_transform(bold_data); print(...)");
          histogram_cell;
          scatter_cell;
          Do (lib "svc = SVC(...); models, scores = decode(bold_normalized, labels, run_ids, svc); print(...)");
          Do (lib "pca = PCA(n_components=20); ...; models_pca, scores_pca = decode(...); print(...)");
          Do (lib "pipe = Pipeline(...); ps = PredefinedSplit(run_ids); clf_pipe = cross_validate(...); print(...)");
          split_printout_cell ].

(** The notebook that tests all imports: the cells for notebooks 01 to 04
    and 10 guard [warnings.simplefilter] with [if not sys.warnoptions];
    the others only import. *)
Definition guarded_imports (imports : string) : cmd :=
  block [ If no_warnoptions (Do (lib "warnings.simplefilter('ignore')")) Skip;
          Do (lib imports) ].

Definition all_imports_notebook : cmd :=
  block [ guarded_imports "imports of 01-setup";
          guarded_imports "imports of 02-data-handling";
          guarded_imports "imports of 03-classification";
          guarded_imports "imports of 04-dimensionality-reduction";
          Do (lib "imports of 05-classifier-optimization");
          Do (lib "imports of 06-rsa");
          Do (lib "imports of 07-searchlight");
          Do (lib "imports of 08-connectivity");
          Do (lib "imports of 09-fcma");
          guarded_imports "imports of 10-isc";
          Do (lib "imports of 11-srm");
          Do (lib "imports of 12-hmm");
          Do (lib "imports of 13-real-time") ].

End Notebooks.

(** *** Termination of bounded commands *)

Lemma for_remaining_terminates (body : value -> cmd) :
  (forall x, terminates (body x)) ->
  forall xs, terminates (For (remaining xs) body).
Proof.
  intros Hbody xs. induction xs as [|x xs IH]; intros s.
  - eexists. now apply E_ForDone.
  - destruct (Hbody x s) as [[[[]|e] s1] Hx].
    + destruct (IH s1) as [r Hr]. exists r. now apply (E_ForStep _ _ s x xs s1 r).
    + eexists. now apply (E_ForBodyRaise _ _ s x xs s1 e).
Qed.

Lemma for_terminates (iterable : nbstate -> list value + string) (body : value -> cmd) :
  (forall x, terminates (body x)) -> terminates (For iterable body).
Proof.
  intros Hbody s. destruct (iterable s) as [[|x xs]|e] eqn:E.
  - eexists. now apply E_ForDone.
  - destruct (Hbody x s) as [[[[]|e] s1] Hx].
    + destruct (for_remaining_terminates body Hbody xs s1) as [r Hr].
      exists r. now apply (E_ForStep _ _ s x xs s1 r).
    + eexists. now apply (E_ForBodyRaise _ _ s x xs s1 e).
  - exists (inr e, s). now apply E_ForRaise.
Qed.

Lemma bounded_terminates (c : cmd) : bounded c -> terminates c.
Proof.
  induction 1 as [|f|c1 c2 _ IH1 _ IH2|test c1 c2 _ IH1 _ IH2|iterable body _ IH]; intros s.
  - eexists. apply E_Skip.
  - eexists. apply E_Do.
  - destruct (IH1 s) as [[[[]|e] s1] H1].
    + destruct (IH2 s1) as [r H2]. exists r. now apply (E_Seq _ _ s s1 r).
    + eexists. now apply (E_SeqRaise _ _ s s1 e).
  - destruct (test s) as [[|]|e] eqn:E.
    + destruct (IH1 s) as [r Hr]. exists r. now apply E_IfTrue.
    + destruct (IH2 s) as [r Hr]. exists r. now apply E_IfFalse.
    + exists (inr e, s). now apply E_IfRaise.
  - now apply for_terminates.
Qed.

Lemma block_bounded (cs : list cmd) : Forall bounded cs -> bounded (block cs).
Proof. induction 1; simpl; now constructor. Qed.

(** A loop whose test never fails and whose body never raises has no
    final state: the semantics does not make every command terminate. *)
Lemma while_true_diverges (s : nbstate) (r : outcome) :
  ~ exec (While (fun _ => inl true) Skip) s r.
Proof.
  intros H. remember (While (fun _ => inl true) Skip) as c eqn:Ec.
  induction H; try discriminate; injection Ec as -> ->; try discriminate.
  - now apply IHexec2.
  - inversion H0.
Qed.

(** The outcome of a command is a function of the state it starts in. *)
Lemma exec_deterministic (c : cmd) (s : nbstate) (r1 r2 : outcome) :
  exec c s r1 -> exec c s r2 -> r1 = r2.
Proof.
  intros H1. revert r2.
  induction H1; intros r2 H2; inversion H2; subst; try congruence;
    repeat match goal with
           | IH : forall r, exec ?c ?s r -> _ = r, H : exec ?c ?s _ |- _ =>
               apply IH in H; try discriminate H; try (injection H as <-)
           | Ha : ?t = inl (?x :: ?xs), Hb : ?t = inl (?y :: ?ys) |- _ =>
               rewrite Ha in Hb; injection Hb as <- <-
           end;
    try congruence; auto.
Qed.

(** The conditional of the cell after Exercise 7, as a command, has the
    outcome of [Ex7.plot_cell]. *)
Lemma exercise7_plot_cell_exec (s : nbstate) :
  exec exercise7_plot_cell s (Ex7.plot_cell s).
Proof.
  unfold exercise7_plot_cell, Ex7.plot_cell, bind, get_var.
  destruct (vars s !! "maskedData_normalized") as [data|] eqn:E.
  - destruct data;
      first [ apply E_IfFalse; [unfold is_not_None; now rewrite E|];
              apply E_Do
            | apply E_IfTrue; [unfold is_not_None; now rewrite E|];
              match goal with
              | |- exec (Do ?f) s ?r => replace r with (f s); [apply E_Do|]
              end;
              unfold bind, get_var; now rewrite E ].
  - apply E_IfRaise. unfold is_not_None. now rewrite E.
Qed.

(** C8: every loop of the notebooks is a [for] loop over a collection
    that is computed before the loop starts ([range(n_conditions)],
    [range(n_plots)] with [n_plots] 4 and 3, and the folds of the split),
    the remaining control flow is sequencing and conditionals, and so each
    notebook reaches a final outcome (normal or an exception) from every
    state, whatever the library calls do to the state. *)
Theorem C8_notebooks_terminate
    (lib : string -> stmt unit)
    (no_warnoptions : nbstate -> bool + string)
    (enumerate_split : nbstate -> list value + string)
    (bind_fold : value -> stmt unit) :
  let nb02 := notebook02 lib no_warnoptions in
  let nb04 := notebook04 lib no_warnoptions enumerate_split bind_fold in
  let nb_imports := all_imports_notebook lib no_warnoptions in
  (bounded nb02 /\ bounded nb04 /\ bounded nb_imports) /\
  (terminates nb02 /\ terminates nb04 /\ terminates nb_imports).
Proof.
  assert (H2 : bounded (notebook02 lib no_warnoptions)).
  { unfold notebook02, import_cell, stimulus_plot_cell, exercise7_plot_cell.
    repeat first [ apply block_bounded | apply List.Forall_cons | apply List.Forall_nil
                 | constructor | intros ? ]. }
  assert (H4 : bounded (notebook04 lib no_warnoptions enumerate_split bind_fold)).
  { unfold notebook04, import_cell, histogram_cell, scatter_cell, split_printout_cell.
    repeat first [ apply block_bounded | apply List.Forall_cons | apply List.Forall_nil
                 | constructor | intros ? ]. }
  assert (Hi : bounded (all_imports_notebook lib no_warnoptions)).
  { unfold all_imports_notebook, guarded_imports.
    repeat first [ apply block_bounded | apply List.Forall_cons | apply List.Forall_nil
                 | constructor | intros ? ]. }
  simpl. repeat split; try assumption; now apply bounded_terminates.
Qed.

End Control.
